(** * Verification of the bus-transfer and pipeline demos of C-for-Firmware

    Three programs of the repository are embedded here:

    - [14_rtos_advanced.cpp]: the counting [Semaphore] and the three tasks
      [task_sensor_read], [task_data_process], [task_uart_send] that share
      one queue;
    - [11_spi_realistic.cpp]: [SPISlave] and [SPIMaster] over the [SPI] bus;
    - [12_i2c_realistic.cpp]: [I2CSlave] and [I2CMaster_Write] over the
      [I2C] bus.

    Threads are modelled by explicit state passing.  The pipeline tasks are
    small state machines stepped by an arbitrary schedule (every
    interleaving); the bus roles are instruction trees that are run either
    against a list of sampled values (one thread on its own) or by a
    discrete-event scheduler that honours the [sleep_for] durations of the
    source. *)

From Stdlib Require Import ZArith List Bool Lia.
Import ListNotations.
Local Open Scope Z_scope.

(** ** Machine integers *)

(** [int] is 32 bits wide; incrementing [INT_MAX] is undefined behaviour. *)
Definition INT_MAX : Z := 2147483647.

(** Conversion to [uint8_t] on assignment. *)
Definition wrap8 (z : Z) : Z := z mod 256.

(** ** The counting semaphore of [14_rtos_advanced.cpp] *)

Module Sem.

Record Semaphore : Type := mk { count : Z }.

(** [Semaphore(int init = 1) : count(init) {}] *)
Definition init (n : Z) : Semaphore := mk n.

(** [wait()]: [cv.wait(lock, count > 0); count--].  [None] means that the
    predicate is false under the internal lock, so the caller stays
    blocked and the count is left as it is. *)
Definition wait (s : Semaphore) : option Semaphore :=
  if 0 <? count s then Some (mk (count s - 1)) else None.

(** [signal()]: [count++; cv.notify_one()].  There is no comparison with
    any capacity.  [None] stands for the signed overflow of [count++]. *)
Definition signal (s : Semaphore) : option Semaphore :=
  if count s <? INT_MAX then Some (mk (count s + 1)) else None.

Inductive call : Type := Wait | Signal.

(** One call made on the semaphore.  A [wait] that finds the count at zero
    does not complete: the state is unchanged and another thread makes the
    next call.  [None] only for the undefined increment. *)
Definition perform (c : call) (s : Semaphore) : option Semaphore :=
  match c with
  | Wait => match wait s with Some s' => Some s' | None => Some s end
  | Signal => signal s
  end.

(** The semaphore states visited by a sequence of calls, the initial one
    first; the sequence stops at an undefined increment. *)
Fixpoint history (cs : list call) (s : Semaphore) : list Semaphore :=
  s :: match cs with
       | [] => []
       | c :: cs' => match perform c s with
                     | Some s' => history cs' s'
                     | None => []
                     end
       end.

(** [k] consecutive [signal()] calls. *)
Definition signals (k : nat) : list call := repeat Signal k.

End Sem.

(** ** The three tasks of [14_rtos_advanced.cpp]

    [main] hands the same [pipelineQueue] to the three threads.  Each task
    is a state machine whose steps are the points at which another thread
    can be scheduled in between; [if(!dataQueue.empty())] together with the
    [front()] and [pop()] under it is taken as one step.  [sensor_mutex]
    and [uart_mutex] are each locked by a single task and never block. *)

Module Pipeline.

Inductive task : Type := Sensor | Process | Uart.

(** Where each task stands. *)
Inductive sensor_pc : Type :=
| SHead      (* at [while(sensor_value < 5)] *)
| SWait      (* at [pipeline_slots.wait()] *)
| SPush      (* at [dataQueue.push(sensor_value)] *)
| SSleep     (* at [sleep_for(100ms)] *)
| SDone.     (* returned *)

Inductive process_pc : Type :=
| PPoll                  (* at [if(!dataQueue.empty())] *)
| PPrint (processed : Z) (* at [cout << "[PROCESS] ..." << processed] *)
| PSignal.               (* at [pipeline_slots.signal()] *)

Inductive uart_pc : Type :=
| UPoll                  (* at [if(!dataQueue.empty())] *)
| USend (val : Z).       (* at [cout << "[UART] Sending data: " << val] *)

(** Lines written to [cout]. *)
Inductive line : Type :=
| SensorRead (v : Z)
| Processed (v : Z)
| UartSending (v : Z).

Record state : Type := mkState {
  pipeline_slots : Sem.Semaphore;
  pipelineQueue : list Z;          (* front of the queue first *)
  sensor_value : Z;
  sensor_at : sensor_pc;
  process_at : process_pc;
  uart_at : uart_pc;
  console : list line;             (* oldest line first *)
  pushed : list Z;                 (* every value enqueued so far, in order *)
  acquired : Z;                    (* completed [wait()] calls *)
  released : Z                     (* completed [signal()] calls *)
}.

(** [Semaphore pipeline_slots(2);] *)
Definition capacity : Z := 2.

(** The bound of the sensor loop, [while(sensor_value < 5)]. *)
Definition READINGS : Z := 5.

(** State at the start of [main]. *)
Definition initial : state :=
  mkState (Sem.init capacity) [] 0 SHead PPoll UPoll [] [] 0 0.

(** One step of [task_sensor_read]; [readings] is the bound of its loop,
    [READINGS] in the source. *)
Definition task_sensor_read (readings : Z) (s : state) : option state :=
  match sensor_at s with
  | SHead =>
      if sensor_value s <? readings then
        let v := sensor_value s + 1 in
        Some (mkState (pipeline_slots s) (pipelineQueue s) v SWait
                (process_at s) (uart_at s) (console s ++ [SensorRead v])
                (pushed s) (acquired s) (released s))
      else
        Some (mkState (pipeline_slots s) (pipelineQueue s) (sensor_value s)
                SDone (process_at s) (uart_at s) (console s) (pushed s)
                (acquired s) (released s))
  | SWait =>
      match Sem.wait (pipeline_slots s) with
      | Some sem =>
          Some (mkState sem (pipelineQueue s) (sensor_value s) SPush
                  (process_at s) (uart_at s) (console s) (pushed s)
                  (acquired s + 1) (released s))
      | None => None
      end
  | SPush =>
      Some (mkState (pipeline_slots s) (pipelineQueue s ++ [sensor_value s])
              (sensor_value s) SSleep (process_at s) (uart_at s) (console s)
              (pushed s ++ [sensor_value s]) (acquired s) (released s))
  | SSleep =>
      Some (mkState (pipeline_slots s) (pipelineQueue s) (sensor_value s)
              SHead (process_at s) (uart_at s) (console s) (pushed s)
              (acquired s) (released s))
  | SDone => None
  end.

(** One step of [task_data_process].  On an empty queue the task sleeps 50 ms
    and polls again: the state is unchanged.  The test and the two queue
    calls that follow it are one step here, as when no other thread runs
    between them; [Race] takes them one by one. *)
Definition task_data_process (s : state) : option state :=
  match process_at s with
  | PPoll =>
      match pipelineQueue s with
      | [] => Some s
      | val :: rest =>
          let processed := val * 2 in
          Some (mkState (pipeline_slots s) rest (sensor_value s)
                  (sensor_at s) (PPrint processed) (uart_at s) (console s)
                  (pushed s) (acquired s) (released s))
      end
  | PPrint processed =>
      Some (mkState (pipeline_slots s) (pipelineQueue s) (sensor_value s)
              (sensor_at s) PSignal (uart_at s)
              (console s ++ [Processed processed]) (pushed s) (acquired s)
              (released s))
  | PSignal =>
      match Sem.signal (pipeline_slots s) with
      | Some sem =>
          Some (mkState sem (pipelineQueue s) (sensor_value s) (sensor_at s)
                  PPoll (uart_at s) (console s) (pushed s) (acquired s)
                  (released s + 1))
      | None => None
      end
  end.

(** One step of [task_uart_send]: it dequeues from the same queue and prints
    the value as it finds it; it never touches [pipeline_slots]. *)
Definition task_uart_send (s : state) : option state :=
  match uart_at s with
  | UPoll =>
      match pipelineQueue s with
      | [] => Some s
      | val :: rest =>
          Some (mkState (pipeline_slots s) rest (sensor_value s)
                  (sensor_at s) (process_at s) (USend val) (console s)
                  (pushed s) (acquired s) (released s))
      end
  | USend val =>
      Some (mkState (pipeline_slots s) (pipelineQueue s) (sensor_value s)
              (sensor_at s) (process_at s) UPoll
              (console s ++ [UartSending val]) (pushed s) (acquired s)
              (released s))
  end.

Definition step (readings : Z) (t : task) (s : state) : option state :=
  match t with
  | Sensor => task_sensor_read readings s
  | Process => task_data_process s
  | Uart => task_uart_send s
  end.

(** The scheduler gives the processor to the tasks in the order of
    [sched]; a task that cannot advance leaves the state as it is. *)
Definition advance (readings : Z) (s : state) (t : task) : state :=
  match step readings t s with
  | Some s' => s'
  | None => s
  end.

Definition run (readings : Z) (sched : list task) (s : state) : state :=
  fold_left (advance readings) sched s.

(** States that some interleaving of the three threads reaches. *)
Definition reachable (readings : Z) (s : state) : Prop :=
  exists sched, s = run readings sched initial.

(** No task can change the state any more. *)
Definition stuck (readings : Z) (s : state) : Prop :=
  forall t, advance readings s t = s.

(** What the sink printed, and what the transform stage printed. *)
Fixpoint uart_output (c : list line) : list Z :=
  match c with
  | [] => []
  | UartSending v :: c' => v :: uart_output c'
  | _ :: c' => uart_output c'
  end.

Fixpoint process_output (c : list line) : list Z :=
  match c with
  | [] => []
  | Processed v :: c' => v :: process_output c'
  | _ :: c' => process_output c'
  end.

(** Items that hold a gate slot: enqueued and not yet released. *)
Definition in_flight (s : state) : Z :=
  Z.of_nat (length (pipelineQueue s))
  + (match sensor_at s with SPush => 1 | _ => 0 end)
  + (match process_at s with PPoll => 0 | _ => 1 end).

(** [l1] is [l2] with items left out: the relative order is kept. *)
Inductive Subseq : list Z -> list Z -> Prop :=
| Subseq_nil : Subseq [] []
| Subseq_keep (x : Z) (l1 l2 : list Z) :
    Subseq l1 l2 -> Subseq (x :: l1) (x :: l2)
| Subseq_skip (x : Z) (l1 l2 : list Z) :
    Subseq l1 l2 -> Subseq l1 (x :: l2).

(** The same, decided by matching greedily from the front. *)
Fixpoint subseq (l1 l2 : list Z) : bool :=
  match l1, l2 with
  | [], _ => true
  | _ :: _, [] => false
  | x :: l1', y :: l2' =>
      if Z.eqb x y then subseq l1' l2' else subseq l1 l2'
  end.

(** The readings [1, 2, ..., m]. *)
Definition upto (m : Z) : list Z := map Z.of_nat (seq 1 (Z.to_nat m)).

(** Values the sink has taken off the queue: those printed and the one it
    is about to print. *)
Definition uart_seen (s : state) : list Z :=
  uart_output (console s)
  ++ match uart_at s with USend val => [val] | UPoll => [] end.

(** The reading that the sensor has announced and not enqueued yet. *)
Definition sensor_pending (s : state) : Z :=
  match sensor_at s with SWait | SPush => 1 | _ => 0 end.

(** *** Invariants *)

(** The gate invariant: free slots and slot holders add up to at most the
    capacity, and the count is the capacity minus the acquires that no
    release has matched yet. *)
Record gate_inv (s : state) : Prop := mkGateInv {
  gate_nonneg : 0 <= Sem.count (pipeline_slots s);
  gate_budget : Sem.count (pipeline_slots s) + in_flight s <= capacity;
  gate_ledger :
    Sem.count (pipeline_slots s) = capacity + released s - acquired s
}.

(** What has been enqueued is what has been dequeued followed by the
    queue, the sink has seen some of the dequeued items in their order, and
    the enqueued values are the readings [1, 2, ...] so far. *)
Record order_inv (n : Z) (s : state) : Prop := mkOrderInv {
  order_taken :
    exists popped, pushed s = popped ++ pipelineQueue s
                   /\ Subseq (uart_seen s) popped;
  order_value :
    sensor_pending s <= sensor_value s <= Z.max 0 n;
  order_pushed :
    pushed s = upto (sensor_value s - sensor_pending s)
}.

(** *** Schedules

    The steps one item takes through each task. *)

(** Sensor: loop test and reading, [wait()], [push]. *)
Definition produce : list task := [Sensor; Sensor; Sensor].

(** Sensor: the 100 ms sleep (and, after the last item, the loop test that
    ends the task). *)
Definition pause : list task := [Sensor].

(** Transform: dequeue and double, print, [signal()]. *)
Definition transform : list task := [Process; Process; Process].

(** Sink: dequeue, print. *)
Definition send : list task := [Uart; Uart].

(** The sink wins the race for the first two items; the sensor then asks
    for a third slot. *)
Definition sink_takes_two : list task :=
  produce ++ send ++ pause ++ produce ++ send ++ pause
  ++ [Sensor; Sensor].

(** The transform stage wins every race. *)
Definition transform_takes_all : list task :=
  produce ++ transform ++ pause ++ produce ++ transform ++ pause
  ++ produce ++ transform ++ pause ++ produce ++ transform ++ pause
  ++ produce ++ transform ++ pause ++ pause.

(** The sink wins the race for the first item only. *)
Definition sink_takes_first : list task :=
  produce ++ send ++ pause ++ produce ++ transform ++ pause
  ++ produce ++ transform ++ pause ++ produce ++ transform ++ pause
  ++ produce ++ transform ++ pause ++ pause.

(** A burst of one item that the transform stage takes. *)
Definition single_item_transformed : list task :=
  produce ++ transform ++ pause ++ pause.

End Pipeline.

(** ** Threads on a shared bus

    A role of [11_spi_realistic.cpp] or [12_i2c_realistic.cpp] is a tree of
    the instructions the source executes on the shared bus object: taking
    and dropping the bus mutex, writing and reading a line, sleeping,
    spinning on a line condition, and reading or assigning the
    [uint8_t &] result that [main] passes by reference.  Local variables of
    the C++ function are variables of the Gallina function building the
    tree. *)

Module Bus.

Inductive role : Type := Controller | Peripheral.

Section Engine.

Context {line bus msg : Type}.
Variable rd : bus -> line -> Z.
Variable wr : line -> Z -> bus -> bus.

Inductive prog : Type :=
| Ret : prog
| Lock : prog -> prog                      (* [lock_guard<mutex> lock(...)] *)
| Unlock : prog -> prog                    (* end of the guard's scope *)
| Write : line -> Z -> prog -> prog        (* [BUS.l = v] *)
| Read : line -> (Z -> prog) -> prog       (* one evaluation of [BUS.l] *)
| Sleep : Z -> prog -> prog                (* [sleep_for(milliseconds(d))] *)
| Await : list (line * Z) -> prog -> prog  (* [while (!(l = v && ...)) sleep_for(1ms)] *)
| Load : (Z -> prog) -> prog               (* read of the by-reference result *)
| Store : Z -> prog -> prog                (* assignment to it *)
| Print : msg -> prog -> prog.             (* a line on [cout] *)

(** The condition of a spin loop, evaluated on the lines as they are. *)
Fixpoint holds (c : list (line * Z)) (b : bus) : bool :=
  match c with
  | [] => true
  | (l, v) :: c' => Z.eqb (rd b l) v && holds c' b
  end.

(** *** One thread on its own

    What a role does when every lock is granted, every spin loop is
    eventually satisfied and the [Read]s return the values of [samples] in
    turn (0 once the list is used up). *)

Inductive event : Type :=
| EvLock | EvUnlock
| EvWrite (l : line) (v : Z)
| EvRead (l : line) (v : Z)
| EvPoll (c : list (line * Z))
| EvSleep (ms : Z)
| EvStore (v : Z)
| EvPrint (m : msg).

Fixpoint alone (samples : list Z) (cell : Z) (p : prog) : list event * Z :=
  match p with
  | Ret => ([], cell)
  | Lock k =>
      let r := alone samples cell k in (EvLock :: fst r, snd r)
  | Unlock k =>
      let r := alone samples cell k in (EvUnlock :: fst r, snd r)
  | Write l v k =>
      let r := alone samples cell k in (EvWrite l v :: fst r, snd r)
  | Read l k =>
      let v := hd 0 samples in
      let r := alone (tl samples) cell (k v) in (EvRead l v :: fst r, snd r)
  | Sleep d k =>
      let r := alone samples cell k in (EvSleep d :: fst r, snd r)
  | Await cnd k =>
      let r := alone samples cell k in (EvPoll cnd :: fst r, snd r)
  | Load k => alone samples cell (k cell)
  | Store v k =>
      let r := alone samples v k in (EvStore v :: fst r, snd r)
  | Print m k =>
      let r := alone samples cell k in (EvPrint m :: fst r, snd r)
  end.

Definition trace (samples : list Z) (p : prog) : list event :=
  fst (alone samples 0 p).

(** Departures from "every access under the lock, no sleep under the
    lock".  A spin loop samples its lines and sleeps 1 ms between two
    samples: outside the lock it is an unlocked sample, under the lock it
    is a sleep with the lock held. *)
Inductive violation : Type :=
| UnlockedWrite (l : line)
| UnlockedRead (l : line)
| UnlockedPoll (c : list (line * Z))
| SleepUnderLock.

Fixpoint violations (held : bool) (t : list event) : list violation :=
  match t with
  | [] => []
  | EvLock :: t' => violations true t'
  | EvUnlock :: t' => violations false t'
  | EvWrite l _ :: t' =>
      if held then violations held t'
      else UnlockedWrite l :: violations held t'
  | EvRead l _ :: t' =>
      if held then violations held t'
      else UnlockedRead l :: violations held t'
  | EvPoll c :: t' =>
      if held then SleepUnderLock :: violations held t'
      else UnlockedPoll c :: violations held t'
  | EvSleep _ :: t' =>
      if held then SleepUnderLock :: violations held t'
      else violations held t'
  | _ :: t' => violations held t'
  end.

(** Lines read by the thread through [Read] (spin loops apart). *)
Fixpoint reads (t : list event) : list (line * Z) :=
  match t with
  | [] => []
  | EvRead l v :: t' => (l, v) :: reads t'
  | _ :: t' => reads t'
  end.

(** Conditions the thread spins on. *)
Fixpoint polls (t : list event) : list (list (line * Z)) :=
  match t with
  | [] => []
  | EvPoll c :: t' => c :: polls t'
  | _ :: t' => polls t'
  end.

Fixpoint printed (t : list event) : list msg :=
  match t with
  | [] => []
  | EvPrint m :: t' => m :: printed t'
  | _ :: t' => printed t'
  end.

(** *** Two threads under the durations of the source

    Instructions take no time, [sleep_for(d)] takes [d] ms.  A thread runs
    until it sleeps, finds the mutex taken, or returns. *)

Record world : Type := mkWorld {
  lines : bus;
  holder : option role;
  cell : Z;
  console : list msg
}.

Inductive pause : Type := Finished | Sleeping (ms : Z) | Contended.

Fixpoint burst (me : role) (p : prog) (w : world) : world * prog * pause :=
  match p with
  | Ret => (w, Ret, Finished)
  | Lock k =>
      match holder w with
      | None => burst me k (mkWorld (lines w) (Some me) (cell w) (console w))
      | Some _ => (w, p, Contended)
      end
  | Unlock k => burst me k (mkWorld (lines w) None (cell w) (console w))
  | Write l v k =>
      burst me k (mkWorld (wr l v (lines w)) (holder w) (cell w) (console w))
  | Read l k => burst me (k (rd (lines w) l)) w
  | Sleep d k => (w, k, Sleeping d)
  | Await c k => if holds c (lines w) then burst me k w else (w, p, Sleeping 1)
  | Load k => burst me (k (cell w)) w
  | Store v k => burst me k (mkWorld (lines w) (holder w) v (console w))
  | Print m k =>
      burst me k (mkWorld (lines w) (holder w) (cell w) (console w ++ [m]))
  end.

Record thread : Type := mkThread {
  code : prog;
  wake : Z;           (* instant at which its sleep ends *)
  waiting : bool;     (* blocked in [Lock] *)
  done : bool
}.

Record sim : Type := mkSim {
  now : Z;
  shared : world;
  controller : thread;
  peripheral : thread
}.

Definition runnable (s : sim) (th : thread) : bool :=
  negb (done th)
  && (if waiting th then
        match holder (shared s) with None => true | Some _ => false end
      else true).

(** A thread blocked on the mutex resumes as soon as the mutex is free. *)
Definition due (s : sim) (th : thread) : Z :=
  if waiting th then now s else Z.max (now s) (wake th).

(** The thread that runs next: the one that is due first; [tie] decides
    between two threads due at the same instant. *)
Definition next (tie : role) (s : sim) : option role :=
  match runnable s (controller s), runnable s (peripheral s) with
  | false, false => None
  | true, false => Some Controller
  | false, true => Some Peripheral
  | true, true =>
      let tc := due s (controller s) in
      let tp := due s (peripheral s) in
      if tc <? tp then Some Controller
      else if tp <? tc then Some Peripheral
      else Some tie
  end.

Definition resume (r : role) (t : Z) (th : thread) (w : world)
  : world * thread :=
  match burst r (code th) w with
  | (w', p', Finished) => (w', mkThread p' t false true)
  | (w', p', Sleeping d) => (w', mkThread p' (t + d) false false)
  | (w', p', Contended) => (w', mkThread p' t true false)
  end.

Definition tick (tie : role) (s : sim) : option sim :=
  match next tie s with
  | None => None
  | Some Controller =>
      let t := due s (controller s) in
      let (w', th') := resume Controller t (controller s) (shared s) in
      Some (mkSim t w' th' (peripheral s))
  | Some Peripheral =>
      let t := due s (peripheral s) in
      let (w', th') := resume Peripheral t (peripheral s) (shared s) in
      Some (mkSim t w' (controller s) th')
  end.

Fixpoint simulate (tie : role) (fuel : nat) (s : sim) : sim :=
  match fuel with
  | O => s
  | S fuel' =>
      match tick tie s with
      | None => s
      | Some s' => simulate tie fuel' s'
      end
  end.

(** Both threads start at instant 0 on an idle bus. *)
Definition boot (b : bus) (cell0 : Z) (main slave : prog) : sim :=
  mkSim 0 (mkWorld b None cell0 [])
        (mkThread main 0 false false) (mkThread slave 0 false false).

Definition finished (s : sim) : bool :=
  done (controller s) && done (peripheral s).

(** The controller has returned and the peripheral sits in a spin loop
    whose condition the lines do not meet. *)
Definition spinning (s : sim) : bool :=
  done (controller s)
  && negb (done (peripheral s))
  && negb (waiting (peripheral s))
  && match code (peripheral s) with
     | Await c _ => negb (holds c (lines (shared s)))
     | _ => false
     end.

End Engine.


(** Loop indices of [for (int i = hi; i >= lo; i--)], in the order the
    loop visits them; [n] bounds the number of iterations. *)
Fixpoint downto (n : nat) (hi lo : Z) : list Z :=
  match n with
  | O => []
  | S n' => if hi <? lo then [] else hi :: downto n' (hi - 1) lo
  end.

(** [(value >> i) & 1] *)
Definition bit_of (value i : Z) : Z := Z.land (Z.shiftr value i) 1.

(** [acc |= ((sample & 1) << i)] on a [uint8_t]. *)
Definition or_bit (acc sample i : Z) : Z :=
  wrap8 (Z.lor acc (Z.shiftl (Z.land sample 1) i)).

(** A frame of bits, most significant first, as a number. *)
Definition frame_value (bits : list Z) : Z :=
  fold_left (fun acc b => 2 * acc + b) bits 0.

(** The values of a [uint8_t]. *)
Definition bytes : list Z := map Z.of_nat (seq 0 256).

(** Check of one byte: its bits 7..0, most significant first, make it
    again. *)
Definition frame_check (v : Z) : bool :=
  Z.eqb (frame_value (map (bit_of v) (downto 8 7 0))) v.

(** Assignment of an integer to a [bool] line, read back as 0 or 1. *)
Definition to_bool (v : Z) : bool := negb (Z.eqb v 0).

End Bus.

(** ** [11_spi_realistic.cpp] *)

Module SPI.
Import Bus.

(** [struct SPIBus] without its mutex, which is the [holder] of the
    engine. *)
Record SPIBus : Type := mkBus {
  MOSI : Z;      (* uint8_t *)
  MISO : Z;      (* uint8_t *)
  CS : bool;     (* active low *)
  SCLK : bool
}.

(** [uint8_t MOSI = 0; uint8_t MISO = 0; bool CS = true; bool SCLK = false] *)
Definition idle : SPIBus := mkBus 0 0 true false.

Inductive line : Type := Mosi | Miso | Cs | Sclk.

Definition rd (b : SPIBus) (l : line) : Z :=
  match l with
  | Mosi => MOSI b
  | Miso => MISO b
  | Cs => Z.b2z (CS b)
  | Sclk => Z.b2z (SCLK b)
  end.

Definition wr (l : line) (v : Z) (b : SPIBus) : SPIBus :=
  match l with
  | Mosi => mkBus (wrap8 v) (MISO b) (CS b) (SCLK b)
  | Miso => mkBus (MOSI b) (wrap8 v) (CS b) (SCLK b)
  | Cs => mkBus (MOSI b) (MISO b) (to_bool v) (SCLK b)
  | Sclk => mkBus (MOSI b) (MISO b) (CS b) (to_bool v)
  end.

Inductive msg : Type :=
| MasterSending (v : Z)      (* "[MASTER] Sending byte: 0b..." *)
| SlaveStarted               (* "[SLAVE] Transaction started" *)
| SlaveReceived (v : Z)      (* "[SLAVE] Byte received: 0b..." *)
| MasterReceived (v : Z).    (* "[MASTER] Byte received from slave: 0b..." *)

Definition prog : Type := @Bus.prog line msg.

(** The body of [for (int i = 7; i >= 0; i--)] in [SPISlave], over the
    indices still to visit. *)
Fixpoint SPISlave_loop (idx : list Z) : prog :=
  match idx with
  | [] => Load (fun received_byte => Print (SlaveReceived received_byte) Ret)
  | i :: rest =>
      Await [(Sclk, 1)]
        (Lock
           (Read Mosi (fun mosi =>
            Load (fun received_byte =>
            Store (or_bit received_byte mosi i)
           (Read Mosi (fun mosi' =>
            Write Miso (Z.land mosi' 1)
           (Unlock
           (Await [(Sclk, 0)]
              (SPISlave_loop rest)))))))))
  end.

Definition SPISlave : prog :=
  Store 0
    (Await [(Cs, 0)]
       (Print SlaveStarted
          (SPISlave_loop (downto 8 7 0)))).

(** The body of the loop of [SPIMaster]; [received_byte] is its local. *)
Fixpoint SPIMaster_loop (data_out : Z) (idx : list Z) (received_byte : Z)
  : prog :=
  match idx with
  | [] => Write Cs 1 (Print (MasterReceived received_byte) Ret)
  | i :: rest =>
      Lock
        (Write Mosi (bit_of data_out i)
        (Write Sclk 1
        (Unlock
        (Sleep 50
        (Lock
        (Read Miso (fun miso =>
         Write Sclk 0
        (Unlock
        (Sleep 50
           (SPIMaster_loop data_out rest
              (or_bit received_byte miso i)))))))))))
  end.

Definition SPIMaster (data_out : Z) : prog :=
  Print (MasterSending data_out)
    (Write Cs 0
       (SPIMaster_loop data_out (downto 8 7 0) 0)).

(** [main]: the slave thread is started, [main] sleeps 10 ms and calls
    [SPIMaster]; [received_by_slave] starts at 0. *)
Definition main_thread (data_to_send : Z) : prog :=
  Sleep 10 (SPIMaster data_to_send).

Definition run : Type := @sim line SPIBus msg.

Definition main (data_to_send : Z) : run :=
  boot idle 0 (main_thread data_to_send) SPISlave.

Definition simulate (tie : role) (fuel : nat) (s : run) : run :=
  Bus.simulate rd wr tie fuel s.

(** The run of [main] is over well within this many scheduling steps. *)
Definition FUEL : nat := 2000.

(** What a finished run leaves behind: [received_by_slave], and the byte
    the master printed as read back. *)
Definition received_by_slave (s : run) : Z := cell (shared s).

Fixpoint master_read_back (c : list msg) : option Z :=
  match c with
  | [] => None
  | MasterReceived v :: _ => Some v
  | _ :: c' => master_read_back c'
  end.

Definition transfer (tie : role) (v : Z) : run :=
  simulate tie FUEL (main v).

(** The run of [main] on [v] ends with both threads returned,
    [received_by_slave] equal to [v], and the four lines of the console
    showing [v] received by the slave and read back by the master. *)
Definition transfer_ok (tie : role) (v : Z) : bool :=
  let s := transfer tie v in
  finished s
  && Z.eqb (received_by_slave s) v
  && match console (shared s) with
     | [MasterSending a; SlaveStarted; SlaveReceived b; MasterReceived c] =>
         Z.eqb a v && Z.eqb b v && Z.eqb c v
     | _ => false
     end.

(** The bits the master clocks out: a write of MOSI followed by SCLK
    high. *)
Fixpoint clocked (t : list (@event line msg)) : list Z :=
  match t with
  | EvWrite Mosi v :: ((EvWrite Sclk 1 :: _) as t') => v :: clocked t'
  | _ :: t' => clocked t'
  | [] => []
  end.

(** Departures from the lock discipline that the two roles make on
    purpose: the select line is written, and the select and clock lines
    are polled, outside the lock. *)
Definition tolerated (v : @violation line) : bool :=
  match v with
  | UnlockedWrite Cs => true
  | UnlockedPoll _ => true
  | _ => false
  end.

End SPI.

(** ** [12_i2c_realistic.cpp] *)

Module I2C.
Import Bus.

(** [struct I2CBus] without its mutex. *)
Record I2CBus : Type := mkBus {
  SDA : bool;    (* 1 = idle *)
  SCL : bool     (* 1 = idle *)
}.

Definition idle : I2CBus := mkBus true true.

Inductive line : Type := Sda | Scl.

Definition rd (b : I2CBus) (l : line) : Z :=
  match l with
  | Sda => Z.b2z (SDA b)
  | Scl => Z.b2z (SCL b)
  end.

Definition wr (l : line) (v : Z) (b : I2CBus) : I2CBus :=
  match l with
  | Sda => mkBus (to_bool v) (SCL b)
  | Scl => mkBus (SDA b) (to_bool v)
  end.

Inductive msg : Type :=
| SlaveStart                 (* "[SLAVE] Detected START condition" *)
| SlaveAddress (a : Z)       (* "[SLAVE] Address received: 0b..." *)
| SlaveAck                   (* "[SLAVE] Sending ACK" *)
| SlaveNack                  (* "[SLAVE] Sending NACK" *)
| SlaveData (d : Z)          (* "[SLAVE] Data received: 0b... | ACK sent" *)
| SlaveStop                  (* "[SLAVE] Detected STOP condition" *)
| MasterStart                (* "[MASTER] START condition" *)
| MasterStop                 (* "[MASTER] STOP condition" *)
| MainFinal (d : Z).         (* "[MAIN] Slave received final data: 0x..." *)

Definition prog : Type := @Bus.prog line msg.

(** [I2CSlave] from "Receive 8-bit data" on: the second loop, the ACK
    after the data and the wait for STOP.  The guard taken for that ACK
    lives until the function returns. *)
Fixpoint I2CSlave_data (idx : list Z) : prog :=
  match idx with
  | [] =>
      Lock
        (Write Sda 0
        (Load (fun received_data =>
         Print (SlaveData received_data)
        (Await [(Sda, 1); (Scl, 1)]
        (Print SlaveStop
        (Unlock Ret))))))
  | i :: rest =>
      Await [(Scl, 1)]
        (Lock
        (Read Sda (fun sda =>
         Load (fun received_data =>
         Store (or_bit received_data sda i)
        (Unlock
        (Await [(Scl, 0)]
           (I2CSlave_data rest)))))))
  end.

(** The address loop of [I2CSlave] and the comparison after it;
    [received_address] is the local of the function.  The line printed is
    [bitset<7>(received_address)], the low seven bits of the byte; the
    comparison is on the whole byte. *)
Fixpoint I2CSlave_address (address : Z) (idx : list Z) (received_address : Z)
  : prog :=
  match idx with
  | [] =>
      Print (SlaveAddress (received_address mod 128))
        (if Z.eqb received_address address then
           Lock (Write Sda 0 (Print SlaveAck (Unlock
             (I2CSlave_data (downto 8 7 0)))))
         else
           Lock (Write Sda 1 (Print SlaveNack (Unlock Ret))))
  | i :: rest =>
      Await [(Scl, 1)]
        (Lock
        (Read Sda (fun sda =>
         Unlock
        (Await [(Scl, 0)]
           (I2CSlave_address address rest
              (or_bit received_address sda i))))))
  end.

Definition I2CSlave (address : Z) : prog :=
  Store 0
    (Await [(Sda, 0); (Scl, 1)]
       (Print SlaveStart
          (I2CSlave_address address (downto 7 7 1) 0))).

(** The two sending loops of [I2CMaster_Write]: the guard is declared at
    the top of the loop body, so it is held over the [sleep_for]. *)
Fixpoint I2CMaster_send (value : Z) (idx : list Z) (k : prog) : prog :=
  match idx with
  | [] => k
  | i :: rest =>
      Lock
        (Write Sda (bit_of value i)
        (Write Scl 1
        (Sleep 50
        (Write Scl 0
        (Unlock
           (I2CMaster_send value rest k))))))
  end.

Definition I2CMaster_Write (address data : Z) : prog :=
  Lock (Write Sda 0 (Write Scl 1 (Unlock
  (Print MasterStart
  (Sleep 50
  (I2CMaster_send address (downto 7 7 1)
  (Sleep 50
  (I2CMaster_send data (downto 8 7 0)
  (Lock (Write Sda 1 (Write Scl 1 (Unlock
  (Print MasterStop Ret))))))))))))).

(** [main] up to [slave_thread.join()]. *)
Definition main_thread (address data_to_send : Z) : prog :=
  Sleep 10 (I2CMaster_Write address data_to_send).

Definition run : Type := @sim line I2CBus msg.

Definition main (slave_address address data_to_send : Z) : run :=
  boot idle 0 (main_thread address data_to_send) (I2CSlave slave_address).

Definition simulate (tie : role) (fuel : nat) (s : run) : run :=
  Bus.simulate rd wr tie fuel s.

(** The bits the controller clocks out: a write of SDA followed by SCL
    high, the hold, and SCL low. *)
Fixpoint clocked (t : list (@event line msg)) : list Z :=
  match t with
  | EvWrite Sda v :: ((EvWrite Scl 1 :: EvSleep _ :: EvWrite Scl 0 :: _) as t')
      => v :: clocked t'
  | _ :: t' => clocked t'
  | [] => []
  end.

(** The writes made to the two lines, in order. *)
Fixpoint driven (t : list (@event line msg)) : list (line * Z) :=
  match t with
  | [] => []
  | EvWrite l v :: t' => (l, v) :: driven t'
  | _ :: t' => driven t'
  end.

(** The peripheral on its own, fed one sample for each bit that the
    controller clocks out for [address], [data], every spin loop taken
    as met.  This is the decoding of [I2CSlave] on the bits meant for it,
    not a run of the two threads: on the lines of [main] the first SCL
    high that [I2CSlave] meets is that of START, and its wait for STOP
    is made with the mutex held.  [simulate] is the run of the two
    threads. *)
Definition receive (slave_address address data : Z) : list (@event line msg) * Z :=
  alone (clocked (trace [] (I2CMaster_Write address data))) 0
        (I2CSlave slave_address).

Definition acked (t : list (@event line msg)) : bool :=
  existsb (fun m => match m with SlaveAck => true | _ => false end) (printed t).

Definition nacked (t : list (@event line msg)) : bool :=
  existsb (fun m => match m with SlaveNack => true | _ => false end) (printed t).

(** The events of the controller: START, one clock pulse per bit, STOP. *)
Definition START : list (@event line msg) :=
  [EvLock; EvWrite Sda 0; EvWrite Scl 1; EvUnlock; EvPrint MasterStart;
   EvSleep 50].

Definition pulse (b : Z) : list (@event line msg) :=
  [EvLock; EvWrite Sda b; EvWrite Scl 1; EvSleep 50; EvWrite Scl 0; EvUnlock].

Definition frame (value : Z) (idx : list Z) : list (@event line msg) :=
  flat_map (fun i => pulse (bit_of value i)) idx.

Definition STOP : list (@event line msg) :=
  [EvLock; EvWrite Sda 1; EvWrite Scl 1; EvUnlock; EvPrint MasterStop].

(** The address byte and the data byte that the loops of [I2CSlave] build
    from seven, resp. eight, samples of SDA. *)
Definition address_seen (bits : list Z) : Z :=
  fold_left (fun acc bi => or_bit acc (fst bi) (snd bi))
            (combine bits (downto 7 7 1)) 0.

Definition data_seen (bits : list Z) : Z :=
  fold_left (fun acc bi => or_bit acc (fst bi) (snd bi))
            (combine bits (downto 8 7 0)) 0.

(** Checks of one byte: what its clocked bits amount to as a frame and in
    the two loops of the peripheral. *)
Definition address_check (a : Z) : bool :=
  Z.eqb (frame_value (map (bit_of a) (downto 7 7 1))) (a / 2).

Definition seen_check (v : Z) : bool :=
  Z.eqb (address_seen (map (bit_of v) [7; 6; 5; 4; 3; 2; 1])) (2 * (v / 2))
  && Z.eqb (data_seen (map (bit_of v) [7; 6; 5; 4; 3; 2; 1; 0])) v.

(** Departures from the lock discipline that are not accesses to a line
    outside the lock. *)
Definition tolerated (v : @violation line) : bool :=
  match v with
  | UnlockedPoll _ => true
  | SleepUnderLock => true
  | _ => false
  end.

(** The run of [main] under the sleeps of the source has come to this
    when the controller has returned. *)
Definition starved (s : run) : Prop :=
  done (controller s) = true
  /\ done (peripheral s) = false
  /\ cell (shared s) = 0
  /\ console (shared s) = [MasterStart; SlaveStart; MasterStop].

End I2C.


(** ** The pipeline: who took which item *)

Module Ledger.
Import Pipeline.

(** [int processed = val * 2] on each item of a list. *)
Definition double (l : list Z) : list Z := map (fun val => val * 2) l.

(** Values the transform stage has computed: those printed and the one it
    is about to print. *)
Definition process_seen (s : state) : list Z :=
  process_output (console s)
  ++ match process_at s with PPrint processed => [processed] | _ => [] end.

(** [l] is an interleaving of [l1] and [l2]: every item of [l] goes to
    exactly one of them, orders kept. *)
Inductive Merge : list Z -> list Z -> list Z -> Prop :=
| Merge_nil : Merge [] [] []
| Merge_left (x : Z) (l1 l2 l : list Z) :
    Merge l1 l2 l -> Merge (x :: l1) l2 (x :: l)
| Merge_right (x : Z) (l1 l2 l : list Z) :
    Merge l1 l2 l -> Merge l1 (x :: l2) (x :: l).


(** Slots: free, held by an item on its way, or gone with an item that
    the sink took. *)
Definition slots_ledger (s : state) : Prop :=
  Sem.count (pipeline_slots s) + in_flight s
  + Z.of_nat (length (uart_seen s)) = capacity.

(** Items: the dequeued ones are split between the two stages. *)
Definition items_ledger (s : state) : Prop :=
  exists taken popped,
    process_seen s = double taken
    /\ Merge taken (uart_seen s) popped
    /\ pushed s = popped ++ pipelineQueue s.

(** The sensor: one completed [wait()] per enqueued reading, plus the one
    whose reading is about to be enqueued; the loop is left only at its
    bound. *)
Definition sensor_ledger (n : Z) (s : state) : Prop :=
  acquired s
  = Z.of_nat (length (pushed s))
    + match sensor_at s with SPush => 1 | _ => 0 end
  /\ (sensor_at s = SDone -> n <= sensor_value s).





End Ledger.

(** ** The bus roles: what they sample and how they use the mutex *)

Module Roles.
Import Bus.

Section Events.

Context {line msg : Type}.

(** [std::mutex] is not recursive: a role may lock only what it does not
    hold and leave a guard's scope only while holding.  [Some held] is the
    state of the guard at the end, [None] a second lock or a stray
    unlock. *)
Fixpoint bracketed (held : bool) (t : list (@event line msg)) : option bool :=
  match t with
  | [] => Some held
  | EvLock :: t' => if held then None else bracketed true t'
  | EvUnlock :: t' => if held then bracketed false t' else None
  | _ :: t' => bracketed held t'
  end.

End Events.

(** The byte that eight samples of a data line make in the loops
    [for (int i = 7; i >= 0; i--) byte |= ((sample & 1) << i)]. *)
Definition byte_of_samples (bits : list Z) : Z :=
  fold_left (fun acc bi => or_bit acc (fst bi) (snd bi))
            (combine bits (downto 8 7 0)) 0.

(** The values [SPISlave] writes to MISO. *)
Fixpoint miso_driven (t : list (@event SPI.line SPI.msg)) : list Z :=
  match t with
  | [] => []
  | EvWrite SPI.Miso v :: t' => v :: miso_driven t'
  | _ :: t' => miso_driven t'
  end.

(** After the run of [SPI.main] on [v]: the mutex is free, CS is high
    again, SCLK is low, and MOSI and MISO carry the last bit sent. *)
Definition transfer_leaves_idle (tie : role) (v : Z) : bool :=
  let s := SPI.transfer tie v in
  match holder (shared s) with None => true | Some _ => false end
  && SPI.CS (lines (shared s))
  && negb (SPI.SCLK (lines (shared s)))
  && Z.eqb (SPI.MOSI (lines (shared s))) (bit_of v 0)
  && Z.eqb (SPI.MISO (lines (shared s))) (bit_of v 0).

(** Scheduling steps after which the controller of [I2C.main] has
    returned. *)
Definition I2C_FUEL : nat := 3000.

End Roles.

(** ** The semaphore: counting the calls *)

Module Tally.
Import Sem.

(** How many calls of the kind [c] a sequence holds. *)
Fixpoint occurrences (c : call) (cs : list call) : Z :=
  match cs with
  | [] => 0
  | x :: cs' =>
      (match c, x with
       | Wait, Wait | Signal, Signal => 1
       | _, _ => 0
       end) + occurrences c cs'
  end.

(** The semaphore after the calls of [cs]. *)
Definition final (cs : list call) (s : Semaphore) : Semaphore :=
  last (history cs s) s.

End Tally.

(** ** [10_uart_simulation.cpp]

    [UART_SendChar], [UART_ReadChar] and each pass of the loop of
    [UART_TransferWire] run from their first access to the registers to
    their end under [UART.uartLock]: each is one step on the registers. *)

Module UART.

(** [struct UART_Registers] without its mutex; a [char] is its code. *)
Record UART_Registers : Type := mkRegs {
  txBuffer : list Z;     (* front of the FIFO first *)
  rxBuffer : list Z;
  txReady : bool;
  rxReady : bool
}.

(** The global [UART]: empty FIFOs, [txReady = true], [rxReady = false]. *)
Definition UART : UART_Registers := mkRegs [] [] true false.

(** [std::queue::empty()] *)
Definition empty (q : list Z) : bool :=
  match q with [] => true | _ :: _ => false end.

(** [void UART_SendChar(char data)] *)
Definition UART_SendChar (data : Z) (u : UART_Registers) : UART_Registers :=
  if txReady u then
    let pushed := mkRegs (txBuffer u ++ [data]) (rxBuffer u) (txReady u) (rxReady u) in
    let busy := mkRegs (txBuffer pushed) (rxBuffer pushed) false (rxReady pushed) in
    mkRegs (txBuffer busy) (rxBuffer busy) true (rxReady busy)
  else u.

(** [char UART_ReadChar()]: the character returned and the registers
    after the call; [None] stands for the path that returns 0 because the
    RX FIFO is empty. *)
Definition UART_ReadChar (u : UART_Registers) : option Z * UART_Registers :=
  match rxBuffer u with
  | data :: rest =>
      (Some data, mkRegs (txBuffer u) rest (txReady u) (negb (empty rest)))
  | [] => (None, u)
  end.

(** The value the C++ function returns. *)
Definition returned (r : option Z) : Z :=
  match r with Some data => data | None => 0 end.

(** One pass of the [while(true)] of [UART_TransferWire], after its
    sleep. *)
Definition UART_TransferWire (u : UART_Registers) : UART_Registers :=
  match txBuffer u with
  | data :: rest => mkRegs rest (rxBuffer u ++ [data]) (txReady u) true
  | [] => u
  end.

(** What the firmware thread and the wire thread do, in the order in
    which they get the lock. *)
Inductive op : Type := Send (data : Z) | Wire | Read.

Definition perform (o : op) (st : UART_Registers * list (option Z))
  : UART_Registers * list (option Z) :=
  match o with
  | Send data => (UART_SendChar data (fst st), snd st)
  | Wire => (UART_TransferWire (fst st), snd st)
  | Read =>
      let r := UART_ReadChar (fst st) in (snd r, snd st ++ [fst r])
  end.

(** The registers after the operations, and the results of the reads. *)
Definition run (ops : list op) (u : UART_Registers)
  : UART_Registers * list (option Z) :=
  fold_left (fun st o => perform o st) ops (u, []).

(** Characters given to [UART_SendChar], and characters that reads
    returned from the RX FIFO. *)
Fixpoint sent (ops : list op) : list Z :=
  match ops with
  | [] => []
  | Send data :: ops' => data :: sent ops'
  | _ :: ops' => sent ops'
  end.

Fixpoint delivered (rs : list (option Z)) : list Z :=
  match rs with
  | [] => []
  | Some data :: rs' => data :: delivered rs'
  | None :: rs' => delivered rs'
  end.

End UART.

(** ** [04_functions_and_modular_design.cpp]: the LED register *)

Module LED.

(** [setLED] and [toggleLED] print an error and return when the index is
    not within 0..7. *)
Definition invalid (led_num : Z) : bool := (led_num <? 0) || (7 <? led_num).

(** [void initLED()]: the new [LED_REG]. *)
Definition initLED (LED_REG : Z) : Z := 0.

(** [void setLED(int led_num, bool state)]: the new [LED_REG], an
    [unsigned char]. *)
Definition setLED (led_num : Z) (state : bool) (LED_REG : Z) : Z :=
  if invalid led_num then LED_REG
  else if state then wrap8 (Z.lor LED_REG (Z.shiftl 1 led_num))
  else wrap8 (Z.land LED_REG (Z.lnot (Z.shiftl 1 led_num))).

(** [void toggleLED(int led_num)] *)
Definition toggleLED (led_num : Z) (LED_REG : Z) : Z :=
  if invalid led_num then LED_REG
  else wrap8 (Z.lxor LED_REG (Z.shiftl 1 led_num)).

(** [void blinkLED(int led_num, int times, int delay_ms)]: the loop runs
    [times] times when [times] is positive, not at all otherwise. *)
Fixpoint blink (led_num : Z) (times : nat) (LED_REG : Z) : Z :=
  match times with
  | O => LED_REG
  | S times' => blink led_num times' (setLED led_num false (setLED led_num true LED_REG))
  end.

Definition blinkLED (led_num times delay_ms : Z) (LED_REG : Z) : Z :=
  blink led_num (Z.to_nat times) LED_REG.

(** The valid indices, and the laws checked on one index and one value
    of the register: switching off after switching on is switching off,
    switching off twice is switching off once, toggling twice changes
    nothing. *)
Definition leds : list Z := [0; 1; 2; 3; 4; 5; 6; 7].

Definition laws_check (led_num LED_REG : Z) : bool :=
  Z.eqb (setLED led_num false (setLED led_num true LED_REG))
        (setLED led_num false LED_REG)
  && Z.eqb (setLED led_num false (setLED led_num false LED_REG))
           (setLED led_num false LED_REG)
  && Z.eqb (toggleLED led_num (toggleLED led_num LED_REG)) LED_REG.

End LED.

(** ** [03_control_flow_and_loops.cpp]: retry and debounce *)

Module Control.

Definition INT_MIN : Z := - 2147483648.

(** The value an [int] keeps of [z].  [simulated_i2c_attempts] is an
    [int]; [++] at [INT_MAX] has no defined result in C++, and the wrap of
    two's complement arithmetic is written out for it. *)
Definition wrap_int (z : Z) : Z :=
  (z + 2147483648) mod 4294967296 - 2147483648.

(** [bool i2c_transfer_once()]: the result and the new value of the
    global [simulated_i2c_attempts]. *)
Definition i2c_transfer_once (simulated_i2c_attempts : Z) : bool * Z :=
  let attempts := wrap_int (simulated_i2c_attempts + 1) in
  (3 <=? attempts, attempts).

Definition MAX_RETRIES : nat := 5.

Record outcome : Type := mkOutcome {
  success : bool;
  attempt : Z;        (* attempts made *)
  attempts_global : Z;  (* [simulated_i2c_attempts] afterwards *)
  delayed : Z         (* milliseconds spent in [delay_ms] *)
}.

(** The [while (attempt < MAX_RETRIES)] of [demo_retry_with_backoff];
    [left] is the number of iterations the loop can still make. *)
Fixpoint retry (left : nat) (attempt counter delayed : Z) : outcome :=
  match left with
  | O => mkOutcome false attempt counter delayed
  | S left' =>
      let attempt' := attempt + 1 in
      let r := i2c_transfer_once counter in
      if fst r then mkOutcome true attempt' (snd r) delayed
      else retry left' attempt' (snd r) (delayed + 10 * attempt')
  end.

Definition demo_retry_with_backoff (simulated_i2c_attempts : Z) : outcome :=
  retry MAX_RETRIES 0 simulated_i2c_attempts 0.

Definition STABLE_REQUIRED : Z := 3.

(** The sampling loop of [demo_debounce_button] over the values that
    [read_button_pin()] returns, in order.  [None]: the samples are used
    up before the loop ends. *)
Fixpoint debounce_loop (samples : list Z) (prev stable_count : Z) : option Z :=
  if STABLE_REQUIRED <=? stable_count then Some prev
  else
    match samples with
    | [] => None
    | cur :: rest =>
        if Z.eqb cur prev then debounce_loop rest prev (stable_count + 1)
        else debounce_loop rest cur 0
    end.

(** [demo_debounce_button]: the first sample is the initial reading. *)
Definition demo_debounce_button (samples : list Z) : option Z :=
  match samples with
  | [] => None
  | initial :: rest => debounce_loop rest initial 0
  end.

End Control.

(** ** The pipeline with the queue calls as separate steps

    [task_data_process] and [task_uart_send] call [dataQueue.empty()],
    [dataQueue.front()] and [dataQueue.pop()] one after the other, on the
    one queue that [main] hands to all three threads, and under no mutex:
    the other thread can run between any two of the calls.  Here each call
    is a step of its own.  [front()] and [pop()] on an empty [std::queue]
    have no defined behaviour: such a step is [Undefined], and a run that
    makes one has no state after it. *)

Module Race.

Import Pipeline.

Inductive process_pc : Type :=
| PCheck                 (* at [if(!dataQueue.empty())] *)
| PFront                 (* at [int val = dataQueue.front()] *)
| PPop (val : Z)         (* at [dataQueue.pop()] *)
| PPrint (processed : Z) (* at [cout << "[PROCESS] ..." << processed] *)
| PSignal.               (* at [pipeline_slots.signal()] *)

Inductive uart_pc : Type :=
| UCheck                 (* at [if(!dataQueue.empty())] *)
| UFront                 (* at [int val = dataQueue.front()] *)
| UPop (val : Z)         (* at [dataQueue.pop()] *)
| USend (val : Z).       (* at [cout << "[UART] Sending data: " << val] *)

Record state : Type := mkState {
  pipeline_slots : Sem.Semaphore;
  pipelineQueue : list Z;          (* front of the queue first *)
  sensor_value : Z;
  sensor_at : sensor_pc;
  process_at : process_pc;
  uart_at : uart_pc;
  console : list line;             (* oldest line first *)
  pushed : list Z;                 (* every value enqueued so far, in order *)
  acquired : Z;                    (* completed [wait()] calls *)
  released : Z                     (* completed [signal()] calls *)
}.

Inductive outcome : Type :=
| Next (s : state)   (* the task has made its step *)
| Blocked            (* the task cannot advance: it waits, or has returned *)
| Undefined.         (* the step has no defined behaviour *)

Definition initial : state :=
  mkState (Sem.init capacity) [] 0 SHead PCheck UCheck [] [] 0 0.

Definition task_sensor_read (readings : Z) (s : state) : outcome :=
  match sensor_at s with
  | SHead =>
      if sensor_value s <? readings then
        let v := sensor_value s + 1 in
        Next (mkState (pipeline_slots s) (pipelineQueue s) v SWait
                (process_at s) (uart_at s) (console s ++ [SensorRead v])
                (pushed s) (acquired s) (released s))
      else
        Next (mkState (pipeline_slots s) (pipelineQueue s) (sensor_value s)
                SDone (process_at s) (uart_at s) (console s) (pushed s)
                (acquired s) (released s))
  | SWait =>
      match Sem.wait (pipeline_slots s) with
      | Some sem =>
          Next (mkState sem (pipelineQueue s) (sensor_value s) SPush
                  (process_at s) (uart_at s) (console s) (pushed s)
                  (acquired s + 1) (released s))
      | None => Blocked
      end
  | SPush =>
      Next (mkState (pipeline_slots s) (pipelineQueue s ++ [sensor_value s])
              (sensor_value s) SSleep (process_at s) (uart_at s) (console s)
              (pushed s ++ [sensor_value s]) (acquired s) (released s))
  | SSleep =>
      Next (mkState (pipeline_slots s) (pipelineQueue s) (sensor_value s)
              SHead (process_at s) (uart_at s) (console s) (pushed s)
              (acquired s) (released s))
  | SDone => Blocked
  end.

Definition task_data_process (s : state) : outcome :=
  match process_at s with
  | PCheck =>
      match pipelineQueue s with
      | [] => Next s          (* [sleep_for(50ms)], then the test again *)
      | _ :: _ =>
          Next (mkState (pipeline_slots s) (pipelineQueue s) (sensor_value s)
                  (sensor_at s) PFront (uart_at s) (console s)
                  (pushed s) (acquired s) (released s))
      end
  | PFront =>
      match pipelineQueue s with
      | [] => Undefined
      | val :: _ =>
          Next (mkState (pipeline_slots s) (pipelineQueue s) (sensor_value s)
                  (sensor_at s) (PPop val) (uart_at s) (console s)
                  (pushed s) (acquired s) (released s))
      end
  | PPop val =>
      match pipelineQueue s with
      | [] => Undefined
      | _ :: rest =>
          let processed := val * 2 in
          Next (mkState (pipeline_slots s) rest (sensor_value s)
                  (sensor_at s) (PPrint processed) (uart_at s) (console s)
                  (pushed s) (acquired s) (released s))
      end
  | PPrint processed =>
      Next (mkState (pipeline_slots s) (pipelineQueue s) (sensor_value s)
              (sensor_at s) PSignal (uart_at s)
              (console s ++ [Processed processed]) (pushed s) (acquired s)
              (released s))
  | PSignal =>
      match Sem.signal (pipeline_slots s) with
      | Some sem =>
          Next (mkState sem (pipelineQueue s) (sensor_value s) (sensor_at s)
                  PCheck (uart_at s) (console s) (pushed s) (acquired s)
                  (released s + 1))
      | None => Undefined     (* [count++] at [INT_MAX] *)
      end
  end.

Definition task_uart_send (s : state) : outcome :=
  match uart_at s with
  | UCheck =>
      match pipelineQueue s with
      | [] => Next s          (* [sleep_for(50ms)], then the test again *)
      | _ :: _ =>
          Next (mkState (pipeline_slots s) (pipelineQueue s) (sensor_value s)
                  (sensor_at s) (process_at s) UFront (console s)
                  (pushed s) (acquired s) (released s))
      end
  | UFront =>
      match pipelineQueue s with
      | [] => Undefined
      | val :: _ =>
          Next (mkState (pipeline_slots s) (pipelineQueue s) (sensor_value s)
                  (sensor_at s) (process_at s) (UPop val) (console s)
                  (pushed s) (acquired s) (released s))
      end
  | UPop val =>
      match pipelineQueue s with
      | [] => Undefined
      | _ :: rest =>
          Next (mkState (pipeline_slots s) rest (sensor_value s)
                  (sensor_at s) (process_at s) (USend val) (console s)
                  (pushed s) (acquired s) (released s))
      end
  | USend val =>
      Next (mkState (pipeline_slots s) (pipelineQueue s) (sensor_value s)
              (sensor_at s) (process_at s) UCheck
              (console s ++ [UartSending val]) (pushed s) (acquired s)
              (released s))
  end.

Definition step (readings : Z) (t : task) (s : state) : outcome :=
  match t with
  | Sensor => task_sensor_read readings s
  | Process => task_data_process s
  | Uart => task_uart_send s
  end.

(** The scheduler gives the processor to the tasks in the order of
    [sched], one step each time; a task that cannot advance leaves the
    state as it is.  [None]: a step without defined behaviour was made. *)
Definition advance (readings : Z) (s : option state) (t : task)
  : option state :=
  match s with
  | None => None
  | Some s =>
      match step readings t s with
      | Next s' => Some s'
      | Blocked => Some s
      | Undefined => None
      end
  end.

Definition run (readings : Z) (sched : list task) (s : state)
  : option state :=
  fold_left (advance readings) sched (Some s).

(** Items that hold a gate slot: enqueued, or dequeued by
    [task_data_process] and not yet released. *)
Definition in_flight (s : state) : Z :=
  Z.of_nat (length (pipelineQueue s))
  + (match sensor_at s with SPush => 1 | _ => 0 end)
  + (match process_at s with PPrint _ | PSignal => 1 | _ => 0 end).

(** Completed [pop()] calls of [task_uart_send]. *)
Definition uart_popped (s : state) : Z :=
  Z.of_nat (length (uart_output (console s)))
  + (match uart_at s with USend _ => 1 | _ => 0 end).

Record gate_inv (s : state) : Prop := mkGateInv {
  gate_nonneg : 0 <= Sem.count (pipeline_slots s);
  gate_ledger :
    Sem.count (pipeline_slots s) = capacity + released s - acquired s;
  gate_slots :
    Sem.count (pipeline_slots s) + in_flight s + uart_popped s = capacity
}.

(** What [task_uart_send] has observed, against the items [popped] off the
    queue so far: a value it holds from [front()] stands in the enqueued
    sequence no later than the first item still queued. *)
Definition uart_order (at_ : uart_pc) (out pushed_ popped : list Z) : Prop :=
  match at_ with
  | UCheck | UFront => Subseq out popped
  | UPop val =>
      exists a b, pushed_ = a ++ val :: b /\ Subseq out a
                  /\ (length a <= length popped)%nat
  | USend val => Subseq (out ++ [val]) popped
  end.

(** The same for [task_data_process], which prints the doubles. *)
Definition process_order (at_ : process_pc) (out pushed_ popped : list Z)
  : Prop :=
  match at_ with
  | PCheck | PFront | PSignal =>
      exists taken, out = Ledger.double taken /\ Subseq taken popped
  | PPop val =>
      exists taken a b,
        out = Ledger.double taken /\ pushed_ = a ++ val :: b
        /\ Subseq taken a /\ (length a <= length popped)%nat
  | PPrint processed =>
      exists taken,
        out ++ [processed] = Ledger.double taken /\ Subseq taken popped
  end.

Definition order_inv (s : state) : Prop :=
  exists popped,
    pushed s = popped ++ pipelineQueue s
    /\ uart_order (uart_at s) (uart_output (console s)) (pushed s) popped
    /\ process_order (process_at s) (process_output (console s))
         (pushed s) popped.

(** *** Schedules *)

(** One item is queued; the transform stage passes its [empty()] test; the
    sink tests, reads and pops the item; the transform stage goes on to
    [front()]. *)
Definition emptied_before_front : list task :=
  produce ++ [Process] ++ [Uart; Uart; Uart] ++ [Process].

(** The state of that run before its last step. *)
Definition before_front : list task :=
  produce ++ [Process] ++ [Uart; Uart; Uart].

(** Two items are queued; both stages read the first with [front()]; the
    sink pops it, the transform stage pops the second; both print. *)
Definition taken_by_both : list task :=
  produce ++ pause ++ produce
  ++ [Process; Process] ++ [Uart; Uart; Uart] ++ [Process; Process]
  ++ [Uart].

End Race.

(** ** What a thread samples in a timed run

    The timed run keeps the lines, the cell and the console.  For the
    round trip the values that each role reads off the lines are written
    down as well. *)

Module Probe.
Import Bus.

Section Sampling.

Context {line bus msg : Type}.
Variable rd : bus -> line -> Z.
Variable wr : line -> Z -> bus -> bus.

(** The samples of one burst, in order: [burst] with every value that a
    [Read] hands to its continuation written down. *)
Fixpoint sampled (me : role) (p : @prog line msg) (w : @world bus msg)
  : list (line * Z) :=
  match p with
  | Ret => []
  | Lock k =>
      match holder w with
      | None => sampled me k (mkWorld (lines w) (Some me) (cell w) (console w))
      | Some _ => []
      end
  | Unlock k => sampled me k (mkWorld (lines w) None (cell w) (console w))
  | Write l v k =>
      sampled me k (mkWorld (wr l v (lines w)) (holder w) (cell w) (console w))
  | Read l k => (l, rd (lines w) l) :: sampled me (k (rd (lines w) l)) w
  | Sleep d k => []
  | Await c k => if holds rd c (lines w) then sampled me k w else []
  | Load k => sampled me (k (cell w)) w
  | Store v k => sampled me k (mkWorld (lines w) (holder w) v (console w))
  | Print m k =>
      sampled me k (mkWorld (lines w) (holder w) (cell w) (console w ++ [m]))
  end.

(** The samples of a run: at each scheduling step, the thread that runs
    and what it reads. *)
Fixpoint samples_of (tie : role) (fuel : nat) (s : @sim line bus msg)
  : list (role * (line * Z)) :=
  match fuel with
  | O => []
  | S fuel' =>
      match next tie s, tick rd wr tie s with
      | Some r, Some s' =>
          let th := match r with
                    | Controller => controller s
                    | Peripheral => peripheral s
                    end in
          map (pair r) (sampled r (code th) (shared s))
          ++ samples_of tie fuel' s'
      | _, _ => []
      end
  end.

End Sampling.

(** The samples [SPIMaster] takes of MISO in the run of [SPI.main], and
    the samples [SPISlave] takes of MOSI. *)
Definition miso_samples (tie : role) (v : Z) : list Z :=
  flat_map (fun x => match x with
                     | (Controller, (SPI.Miso, m)) => [m]
                     | _ => []
                     end)
           (samples_of SPI.rd SPI.wr tie SPI.FUEL (SPI.main v)).

Definition mosi_samples (tie : role) (v : Z) : list Z :=
  flat_map (fun x => match x with
                     | (Peripheral, (SPI.Mosi, m)) => [m]
                     | _ => []
                     end)
           (samples_of SPI.rd SPI.wr tie SPI.FUEL (SPI.main v)).

(** Each bit twice: [SPISlave] reads MOSI for the byte and again for the
    echo. *)
Definition twice (bits : list Z) : list Z :=
  flat_map (fun b => [b; b]) bits.

Fixpoint list_eqb (a b : list Z) : bool :=
  match a, b with
  | [], [] => true
  | x :: a', y :: b' => Z.eqb x y && list_eqb a' b'
  | _, _ => false
  end.

(** In the run of [SPI.main] on [v] the master samples the bits of [v] on
    MISO, most significant first, the slave samples each of them twice on
    MOSI, and no role takes any other sample. *)
Definition echo_ok (tie : role) (v : Z) : bool :=
  list_eqb (miso_samples tie v) (map (bit_of v) (downto 8 7 0))
  && list_eqb (mosi_samples tie v) (twice (map (bit_of v) (downto 8 7 0)))
  && Nat.eqb (length (samples_of SPI.rd SPI.wr tie SPI.FUEL (SPI.main v))) 24.

End Probe.
(** * Facts about the semaphore *)

Module SemFacts.
Import Sem.

Lemma wait_some (s s' : Semaphore) :
  wait s = Some s' -> 0 < count s /\ count s' = count s - 1.
Proof.
  unfold wait. destruct (0 <? count s) eqn:E; [|discriminate].
  intros H. injection H as <-. apply Z.ltb_lt in E. simpl. lia.
Qed.

Lemma signal_some (s s' : Semaphore) :
  signal s = Some s' -> count s' = count s + 1 /\ count s < INT_MAX.
Proof.
  unfold signal. destruct (count s <? INT_MAX) eqn:E; [|discriminate].
  intros H. injection H as <-. apply Z.ltb_lt in E. simpl. lia.
Qed.

Lemma perform_nonneg (c : call) (s s' : Semaphore) :
  0 <= count s -> perform c s = Some s' -> 0 <= count s'.
Proof.
  intros Hs. destruct c; simpl.
  - destruct (wait s) as [w|] eqn:E; intros H; injection H as <-.
    + apply wait_some in E. lia.
    + exact Hs.
  - intros H. apply signal_some in H. lia.
Qed.

Lemma history_nonneg (cs : list call) :
  forall s, 0 <= count s -> Forall (fun x => 0 <= count x) (history cs s).
Proof.
  induction cs as [|c cs IH]; intros s Hs; simpl.
  - constructor; [exact Hs | constructor].
  - constructor; [exact Hs|].
    destruct (perform c s) as [s'|] eqn:E; [|constructor].
    apply IH. eapply perform_nonneg; eauto.
Qed.

Lemma history_signals (k : nat) :
  forall n, n + Z.of_nat k <= INT_MAX ->
            last (history (signals k) (mk n)) (mk n) = mk (n + Z.of_nat k).
Proof.
  induction k as [|k IH]; intros n Hn.
  - simpl. f_equal. lia.
  - change (signals (S k)) with (Signal :: signals k).
    cbn [history perform]. unfold signal. cbn [count].
    destruct (n <? INT_MAX) eqn:E.
    2:{ apply Z.ltb_ge in E. lia. }
    specialize (IH (n + 1) ltac:(lia)).
    destruct (history (signals k) (mk (n + 1))) as [|h t] eqn:Eh.
    { destruct k; discriminate Eh. }
    change (last (mk n :: h :: t) (mk n)) with (last (h :: t) (mk n)).
    replace (n + Z.of_nat (S k)) with (n + 1 + Z.of_nat k) by lia.
    rewrite <- IH. clear.
    revert h. induction t as [|x t IHt]; intros h; [reflexivity|].
    change (last (h :: x :: t) (mk n)) with (last (x :: t) (mk n)).
    change (last (h :: x :: t) (mk (n + 1))) with (last (x :: t) (mk (n + 1))).
    apply IHt.
Qed.

(** C10.  Whatever calls are made on a semaphore created with a
    non-negative count, the count is never negative, and a [wait] that
    completes found it positive and took one off; but [signal] adds one
    with no bound in sight: [k] of them on a semaphore of capacity [n]
    leave the count at [n + k], above the capacity, and none of them
    fails. *)
Theorem semaphore_never_negative_never_capped :
  forall (n : Z) (cs : list call) (k : nat),
    0 <= n ->
    n + Z.of_nat k <= INT_MAX ->
    Forall (fun s => 0 <= count s) (history cs (init n))
    /\ (forall s s', wait s = Some s' -> 0 < count s /\ count s' = count s - 1)
    /\ (forall s, count s <= 0 -> wait s = None)
    /\ length (history (signals k) (init n)) = S k
    /\ last (history (signals k) (init n)) (init n) = mk (n + Z.of_nat k).
Proof.
  intros n cs k Hn Hk. repeat split.
  - apply history_nonneg. exact Hn.
  - apply wait_some in H. lia.
  - apply wait_some in H. lia.
  - intros s Hs. unfold wait. destruct (0 <? count s) eqn:E; [|reflexivity].
    apply Z.ltb_lt in E. lia.
  - unfold init. revert n Hn Hk. induction k as [|k IH]; intros n Hn Hk.
    + reflexivity.
    + change (signals (S k)) with (Signal :: signals k).
      cbn [history perform]. unfold signal. cbn [count].
      destruct (n <? INT_MAX) eqn:E.
      2:{ apply Z.ltb_ge in E. lia. }
      cbn [length]. f_equal. apply IH; lia.
  - apply history_signals. exact Hk.
Qed.

Lemma semaphore_never_negative_never_capped_witness :
  0 <= 2 /\ 2 + Z.of_nat 3 <= INT_MAX
  /\ Forall (fun s => 0 <= count s)
            (history [Signal; Wait; Wait; Wait; Wait; Signal] (init 2))
  /\ last (history (signals 3) (init 2)) (init 2) = mk 5.
Proof.
  assert (H0 : 0 <= 2) by lia.
  assert (H1 : 2 + Z.of_nat 3 <= INT_MAX) by (vm_compute; discriminate).
  pose proof (semaphore_never_negative_never_capped
                2 [Signal; Wait; Wait; Wait; Wait; Signal] 3 H0 H1) as H.
  split; [exact H0|]. split; [exact H1|].
  split; [exact (proj1 H) | exact (proj2 (proj2 (proj2 (proj2 H))))].
Defined.

End SemFacts.

(** * Facts about the pipeline of [14_rtos_advanced.cpp] *)

Module PipelineFacts.
Import Pipeline.

Lemma gate_inv_initial : gate_inv initial.
Proof. split; vm_compute; congruence. Qed.

Ltac pipeline_step_cases :=
  repeat match goal with
  | H : Some _ = Some _ |- _ => injection H as <-
  | H : None = Some _ |- _ => discriminate H
  | H : context [match ?x with _ => _ end] |- _ => destruct x eqn:?
  end.

Lemma gate_inv_step (n : Z) (t : task) (s s' : state) :
  gate_inv s -> step n t s = Some s' -> gate_inv s'.
Proof.
  intros [Hn Hb Hl] Hstep. unfold in_flight in Hb.
  destruct s as [sem q v spc ppc upc con psh acq rel]. cbn [pipeline_slots
    pipelineQueue sensor_at process_at released acquired] in *.
  destruct t; cbn [step] in Hstep;
    [unfold task_sensor_read in Hstep | unfold task_data_process in Hstep
     | unfold task_uart_send in Hstep];
    cbn [pipeline_slots pipelineQueue sensor_at process_at uart_at
         sensor_value console pushed released acquired] in Hstep;
    pipeline_step_cases;
    repeat match goal with
    | H : Sem.wait _ = Some _ |- _ => apply SemFacts.wait_some in H
    | H : Sem.signal _ = Some _ |- _ => apply SemFacts.signal_some in H
    end;
    split; unfold in_flight;
    cbn [pipeline_slots pipelineQueue sensor_at process_at released acquired
         length] in *;
    rewrite ?length_app in *; cbn [length] in *; try lia.
Qed.

Lemma gate_inv_run (n : Z) (sched : list task) :
  forall s, gate_inv s -> gate_inv (run n sched s).
Proof.
  induction sched as [|t sched IH]; intros s Hs; [exact Hs|].
  cbn [run fold_left]. apply IH. unfold advance.
  destruct (step n t s) as [s'|] eqn:E; [|exact Hs].
  eapply gate_inv_step; eauto.
Qed.

Lemma in_flight_queue (s : state) :
  Z.of_nat (length (pipelineQueue s)) <= in_flight s.
Proof.
  unfold in_flight. destruct (sensor_at s), (process_at s); lia.
Qed.

(** *** Order of the items *)

Lemma Subseq_nil_l (l : list Z) : Subseq [] l.
Proof. induction l; constructor; assumption. Qed.

Lemma Subseq_refl (l : list Z) : Subseq l l.
Proof. induction l; constructor; assumption. Qed.

Lemma Subseq_snoc_skip (x : Z) (l1 l2 : list Z) :
  Subseq l1 l2 -> Subseq l1 (l2 ++ [x]).
Proof.
  induction 1; cbn [app].
  - apply Subseq_nil_l.
  - constructor; assumption.
  - constructor; assumption.
Qed.

Lemma Subseq_snoc_keep (x : Z) (l1 l2 : list Z) :
  Subseq l1 l2 -> Subseq (l1 ++ [x]) (l2 ++ [x]).
Proof.
  induction 1; cbn [app].
  - apply Subseq_refl.
  - constructor; assumption.
  - constructor; assumption.
Qed.

Lemma Subseq_app_r (l1 l2 l3 : list Z) :
  Subseq l1 l2 -> Subseq l1 (l2 ++ l3).
Proof.
  intros H. induction l3 as [|x l3 IH] using rev_ind.
  - rewrite app_nil_r. exact H.
  - rewrite app_assoc. apply Subseq_snoc_skip. exact IH.
Qed.

Lemma Subseq_prefix (l1 l1' l2 : list Z) :
  Subseq (l1 ++ l1') l2 -> Subseq l1 l2.
Proof.
  revert l1. induction l2 as [|y l2 IH]; intros l1 H.
  - inversion H as [E| |]. destruct l1; [constructor | discriminate].
  - destruct l1 as [|x l1]; [apply Subseq_nil_l|].
    cbn [app] in H. inversion H; subst.
    + constructor. apply IH. assumption.
    + apply Subseq_skip. apply (IH (x :: l1)). assumption.
Qed.

Lemma Subseq_In (x : Z) (l1 l2 : list Z) :
  Subseq l1 l2 -> In x l1 -> In x l2.
Proof.
  induction 1; cbn [In]; intuition.
Qed.

Lemma subseq_tail (x : Z) (l1 l2 : list Z) :
  subseq (x :: l1) l2 = true -> subseq l1 l2 = true.
Proof.
  revert x l1. induction l2 as [|y l2 IH]; intros x l1; cbn [subseq].
  - discriminate.
  - destruct (Z.eqb x y).
    + intros H. destruct l1 as [|z l1]; [reflexivity|]. cbn [subseq].
      destruct (Z.eqb z y); [eapply IH; exact H | exact H].
    + intros H. apply IH in H. destruct l1 as [|z l1]; [reflexivity|].
      cbn [subseq]. destruct (Z.eqb z y); [eapply IH; exact H | exact H].
Qed.

Lemma Subseq_subseq (l1 l2 : list Z) : Subseq l1 l2 -> subseq l1 l2 = true.
Proof.
  induction 1 as [|x l1 l2 _ IH|x l1 l2 _ IH]; cbn [subseq].
  - reflexivity.
  - rewrite Z.eqb_refl. exact IH.
  - destruct l1 as [|y l1]; [reflexivity|].
    destruct (Z.eqb y x); [eapply subseq_tail; exact IH | exact IH].
Qed.

Lemma uart_output_app (c1 c2 : list line) :
  uart_output (c1 ++ c2) = uart_output c1 ++ uart_output c2.
Proof.
  induction c1 as [|[v|v|v] c1 IH]; cbn [app uart_output]; rewrite ?IH;
    reflexivity.
Qed.

Lemma upto_snoc (v : Z) : 1 <= v -> upto (v - 1) ++ [v] = upto v.
Proof.
  intros Hv. unfold upto.
  replace (Z.to_nat v) with (S (Z.to_nat (v - 1))) by lia.
  rewrite seq_S, map_app. cbn [map]. do 2 f_equal. lia.
Qed.

Lemma upto_In (x m : Z) : In x (upto m) -> 1 <= x <= m.
Proof.
  unfold upto. rewrite in_map_iff. intros [k [<- Hk]].
  apply in_seq in Hk. lia.
Qed.

Lemma upto_prefix (a b : Z) : a <= b -> exists l, upto b = upto a ++ l.
Proof.
  intros Hab. unfold upto.
  exists (map Z.of_nat (seq (1 + Z.to_nat a) (Z.to_nat b - Z.to_nat a))).
  rewrite <- map_app, <- seq_app. do 2 f_equal. lia.
Qed.

Lemma order_inv_initial (n : Z) : order_inv n initial.
Proof.
  split.
  - exists []. split; [reflexivity | constructor].
  - cbn. lia.
  - reflexivity.
Qed.

Lemma order_inv_step (n : Z) (t : task) (s s' : state) :
  order_inv n s -> step n t s = Some s' -> order_inv n s'.
Proof.
  intros [[popped [Hp Hs]] Hv Hu] Hstep.
  unfold uart_seen in Hs. unfold sensor_pending in Hv, Hu.
  destruct s as [sem q v spc ppc upc con psh acq rel].
  cbn [pipelineQueue sensor_at uart_at console pushed sensor_value] in *.
  destruct t; cbn [step] in Hstep;
    [unfold task_sensor_read in Hstep | unfold task_data_process in Hstep
     | unfold task_uart_send in Hstep];
    cbn [pipeline_slots pipelineQueue sensor_at process_at uart_at
         sensor_value console pushed released acquired] in Hstep;
    pipeline_step_cases;
    repeat match goal with
    | H : (_ <? _) = true |- _ => apply Z.ltb_lt in H
    | H : (_ <? _) = false |- _ => apply Z.ltb_ge in H
    end;
    (split; unfold uart_seen, sensor_pending;
     cbn [pipelineQueue sensor_at uart_at console pushed sensor_value];
     [ | try lia | ]);
    rewrite ?uart_output_app; cbn [uart_output]; rewrite ?app_nil_r;
    rewrite ?app_nil_r in Hs; rewrite ?Z.sub_0_r in *;
    first
      [ assumption
      | rewrite Hu; f_equal; lia
      | rewrite Hu; apply upto_snoc; lia
      | exists popped; split; [assumption | assumption]
      | exists popped; split; [rewrite Hp, <- app_assoc; reflexivity | assumption]
      | match type of Hp with
        | _ = _ ++ ?z :: _ =>
            exists (popped ++ [z]); split;
            [ rewrite Hp, <- app_assoc; reflexivity
            | first [ apply Subseq_snoc_keep; assumption
                    | apply Subseq_snoc_skip; assumption ] ]
        end ].
Qed.

Lemma order_inv_run (n : Z) (sched : list task) :
  forall s, order_inv n s -> order_inv n (run n sched s).
Proof.
  induction sched as [|t sched IH]; intros s Hs; [exact Hs|].
  cbn [run fold_left]. apply IH. unfold advance.
  destruct (step n t s) as [s'|] eqn:E; [|exact Hs].
  eapply order_inv_step; eauto.
Qed.

(** The sink prints some of the enqueued values, in the order of their
    enqueueing, and every enqueued value is a reading between 1 and the
    bound of the sensor loop. *)
Lemma sink_sees_subsequence (n : Z) (s : state) :
  reachable n s ->
  Subseq (uart_output (console s)) (pushed s)
  /\ exists l, upto (Z.max 0 n) = pushed s ++ l.
Proof.
  intros [sched ->].
  destruct (order_inv_run n sched initial (order_inv_initial n))
    as [[popped [Hp Hs]] Hv Hu].
  split.
  - rewrite Hp. apply Subseq_app_r.
    eapply Subseq_prefix. exact Hs.
  - rewrite Hu. apply upto_prefix. unfold sensor_pending in *.
    destruct (sensor_at (run n sched initial)); lia.
Qed.

Lemma stuck_forever (n : Z) (s : state) :
  stuck n s -> forall sched, run n sched s = s.
Proof.
  intros Hs sched. induction sched as [|t sched IH]; [reflexivity|].
  cbn [run fold_left]. rewrite Hs. exact IH.
Qed.

(** *** The fixed scenario of [main] *)

(** C3 (the code departs from it).  With capacity 2 and the five readings
    1..5 the queue never holds more than 2 items and the transform stage
    prints the double of what it dequeues, but the doubled values are not
    passed on: in no interleaving does the sink print 2, 4, 6, 8, 10, and
    when the transform stage takes all five items the sink prints
    nothing. *)
Theorem doubled_values_never_reach_the_sink :
  (forall sched : list task,
      let s := run READINGS sched initial in
      uart_output (console s) <> [2; 4; 6; 8; 10]
      /\ Z.of_nat (length (pipelineQueue s)) <= in_flight s <= 2)
  /\ (let s := run READINGS transform_takes_all initial in
      stuck READINGS s
      /\ sensor_at s = SDone
      /\ process_output (console s) = [2; 4; 6; 8; 10]
      /\ uart_output (console s) = []).
Proof.
  split.
  - intros sched s.
    assert (Hr : reachable READINGS s) by (exists sched; reflexivity).
    split.
    + intros Heq.
      destruct (sink_sees_subsequence READINGS s Hr) as [Hsub [l Hl]].
      assert (H6 : In 6 (pushed s)).
      { eapply Subseq_In; [exact Hsub|]. rewrite Heq. cbn. tauto. }
      assert (H6' : In 6 (upto (Z.max 0 READINGS))).
      { rewrite Hl. apply in_or_app. left. exact H6. }
      apply upto_In in H6'. unfold READINGS in H6'. lia.
    + destruct (gate_inv_run READINGS sched initial gate_inv_initial)
        as [Hn Hb _].
      pose proof (in_flight_queue s) as Hq. fold s in Hn, Hb.
      unfold capacity in Hb. lia.
  - cbv zeta. repeat split; try reflexivity.
    intros [| |]; vm_compute; reflexivity.
Qed.

(** C5 (the code departs from it).  The sink dequeues from the queue of
    the transform stage and never releases the gate.  When it takes the
    first two items both slots are lost: the sensor blocks in [wait()]
    with its third reading, nothing is left that could call [signal()],
    and no schedule moves the system again; readings 3, 4 and 5 are never
    enqueued and no item was transformed. *)
Theorem sink_theft_blocks_the_sensor :
  let s := run READINGS sink_takes_two initial in
  sensor_at s = SWait
  /\ sensor_value s = 3
  /\ Sem.wait (pipeline_slots s) = None
  /\ acquired s = 2 /\ released s = 0
  /\ pipelineQueue s = []
  /\ pushed s = [1; 2]
  /\ uart_output (console s) = [1; 2]
  /\ process_output (console s) = []
  /\ stuck READINGS s
  /\ (forall sched, run READINGS sched s = s).
Proof.
  cbv zeta.
  assert (Hstuck : stuck READINGS (run READINGS sink_takes_two initial))
    by (intros [| |]; vm_compute; reflexivity).
  repeat split; try reflexivity; try exact Hstuck.
  apply stuck_forever. exact Hstuck.
Qed.

End PipelineFacts.

(** * Facts about the bus engine *)

Module BusFacts.
Import Bus.

(** A property checked on the 256 values of a [uint8_t] holds of each. *)
Lemma bytes_all (P : Z -> bool) :
  forallb P bytes = true -> forall v, 0 <= v < 256 -> P v = true.
Proof.
  intros H v Hv. rewrite forallb_forall in H. apply H.
  unfold bytes. apply in_map_iff. exists (Z.to_nat v). split; [lia|].
  apply in_seq. lia.
Qed.

(** The bits of a byte, most significant first, make the byte again. *)
Lemma frame_value_byte (v : Z) :
  0 <= v < 256 -> frame_value (map (bit_of v) (downto 8 7 0)) = v.
Proof.
  intros Hv.
  assert (H : forallb frame_check bytes = true) by (vm_compute; reflexivity).
  apply Z.eqb_eq. exact (bytes_all frame_check H v Hv).
Qed.

Section Scheduler.

Context {line bus msg : Type}.
Variable rd : bus -> line -> Z.
Variable wr : line -> Z -> bus -> bus.
Variable tie : role.

Lemma tick_finished (s : @sim line bus msg) :
  finished s = true -> tick rd wr tie s = None.
Proof.
  unfold finished, tick, next, runnable.
  intros H. apply andb_true_iff in H as [Hc Hp]. rewrite Hc, Hp. reflexivity.
Qed.

Lemma simulate_halted (s : @sim line bus msg) (fuel : nat) :
  tick rd wr tie s = None -> simulate rd wr tie fuel s = s.
Proof. intros H. destruct fuel; cbn [simulate]; rewrite ?H; reflexivity. Qed.

Lemma simulate_add (a b : nat) :
  forall s : @sim line bus msg,
    simulate rd wr tie (a + b) s
    = simulate rd wr tie b (simulate rd wr tie a s).
Proof.
  induction a as [|a IH]; intros s; [reflexivity|].
  cbn [Nat.add simulate]. destruct (tick rd wr tie s) as [s'|] eqn:E.
  - apply IH.
  - symmetry. apply simulate_halted. exact E.
Qed.

(** Once both threads have returned, more fuel changes nothing. *)
Lemma simulate_enough (s : @sim line bus msg) (fuel fuel' : nat) :
  finished (simulate rd wr tie fuel s) = true -> (fuel <= fuel')%nat ->
  simulate rd wr tie fuel' s = simulate rd wr tie fuel s.
Proof.
  intros Hf Hle. replace fuel' with (fuel + (fuel' - fuel))%nat by lia.
  rewrite simulate_add. apply simulate_halted. apply tick_finished. exact Hf.
Qed.

End Scheduler.

(** ** SPI *)

Section SPIFacts.
Import SPI.

Lemma transfers_checked :
  forallb (fun v => transfer_ok Controller v && transfer_ok Peripheral v)
          bytes = true.
Proof. vm_compute. reflexivity. Qed.

Lemma transfer_ok_sound (tie : role) (v : Z) :
  transfer_ok tie v = true ->
  finished (transfer tie v) = true
  /\ received_by_slave (transfer tie v) = v
  /\ console (shared (transfer tie v))
     = [MasterSending v; SlaveStarted; SlaveReceived v; MasterReceived v].
Proof.
  unfold transfer_ok. cbv zeta. intros H.
  apply andb_true_iff in H as [H Hc]. apply andb_true_iff in H as [Hf Hr].
  apply Z.eqb_eq in Hr. split; [exact Hf|]. split; [exact Hr|].
  destruct (console (shared (transfer tie v))) as [|[a| |b|c] [|[| | |] [|[| |b'|] [|[| | |c'] [|]]]]];
    try discriminate Hc.
  apply andb_true_iff in Hc as [Hc H3]. apply andb_true_iff in Hc as [H1 H2].
  apply Z.eqb_eq in H1, H2, H3. subst. reflexivity.
Qed.

Lemma master_clocks_msb_first (v : Z) (samples : list Z) :
  SPI.clocked (trace samples (SPIMaster v)) = map (bit_of v) [7; 6; 5; 4; 3; 2; 1; 0].
Proof. reflexivity. Qed.


End SPIFacts.

(** ** I2C: the controller *)

Section I2CController.
Import I2C.

(** [I2CMaster_Write] holds no [Read], [Load] or [Await]: whatever the
    lines carry, it performs the same events and leaves the referenced
    byte alone. *)
Lemma master_events (address data : Z) (samples : list Z) (cell : Z) :
  alone samples cell (I2CMaster_Write address data)
  = (START ++ frame address [7; 6; 5; 4; 3; 2; 1] ++ [EvSleep 50]
       ++ frame data [7; 6; 5; 4; 3; 2; 1; 0] ++ STOP,
     cell).
Proof. reflexivity. Qed.

Lemma master_clocked (address data : Z) (samples : list Z) :
  I2C.clocked (trace samples (I2CMaster_Write address data))
  = map (bit_of address) [7; 6; 5; 4; 3; 2; 1]
    ++ map (bit_of data) [7; 6; 5; 4; 3; 2; 1; 0].
Proof. reflexivity. Qed.

(** The seven bits clocked out for the address are bits 7..1 of the byte:
    bit 0 is not sent. *)
Lemma frame_value_address (a : Z) :
  0 <= a < 256 -> frame_value (map (bit_of a) (downto 7 7 1)) = a / 2.
Proof.
  intros Ha.
  assert (H : forallb address_check bytes = true) by (vm_compute; reflexivity).
  apply Z.eqb_eq. exact (bytes_all address_check H a Ha).
Qed.

(** C7, as the source has it.  [I2CMaster_Write] drives START, then the
    seven address bits 7..1 and the eight data bits 7..0, most significant
    first, each as: SDA set, SCL high, 50 ms hold, SCL low; after the last
    bit it drives STOP.  It samples no line at any point, so no
    acknowledgement is observed or returned: between the two frames it
    only sleeps. *)
Theorem controller_write_frames_msb_first :
  forall (address data : Z) (samples : list Z),
    0 <= address < 256 -> 0 <= data < 256 ->
    let t := trace samples (I2CMaster_Write address data) in
    t = START ++ frame address (downto 7 7 1) ++ [EvSleep 50]
          ++ frame data (downto 8 7 0) ++ STOP
    /\ downto 7 7 1 = [7; 6; 5; 4; 3; 2; 1]
    /\ downto 8 7 0 = [7; 6; 5; 4; 3; 2; 1; 0]
    /\ I2C.clocked t
       = map (bit_of address) (downto 7 7 1) ++ map (bit_of data) (downto 8 7 0)
    /\ frame_value (firstn 7 (I2C.clocked t)) = address / 2
    /\ frame_value (skipn 7 (I2C.clocked t)) = data
    /\ skipn (length t - length STOP) t = STOP
    /\ reads t = []
    /\ polls t = [].
Proof.
  intros address data samples Ha Hd t.
  split; [reflexivity|]. split; [reflexivity|]. split; [reflexivity|].
  split; [reflexivity|].
  split; [exact (frame_value_address address Ha)|].
  split; [exact (frame_value_byte data Hd)|].
  repeat split; reflexivity.
Qed.

Lemma controller_write_frames_msb_first_witness :
  0 <= 80 < 256 /\ 0 <= 165 < 256
  /\ I2C.clocked (trace [] (I2CMaster_Write 80 165))
     = [0; 1; 0; 1; 0; 0; 0; 1; 0; 1; 0; 0; 1; 0; 1]
  /\ reads (trace [] (I2CMaster_Write 80 165)) = [].
Proof.
  assert (Ha : 0 <= 80 < 256) by lia.
  assert (Hd : 0 <= 165 < 256) by lia.
  pose proof (controller_write_frames_msb_first 80 165 [] Ha Hd) as T.
  cbv zeta in T.
  split; [exact Ha|]. split; [exact Hd|].
  split; [exact (proj1 (proj2 (proj2 (proj2 T))))|].
  exact (proj1 (proj2 (proj2 (proj2 (proj2 (proj2 (proj2 (proj2 T)))))))).
Defined.

(** C7 as stated fails: the controller reads nothing, and does and leaves
    the same whether the line shows ACK (0) or NACK (1) when sampled. *)
Lemma controller_write_observes_no_ack :
  reads (trace [1] (I2CMaster_Write 80 165)) = []
  /\ alone [0] 0 (I2CMaster_Write 80 165) = alone [1] 0 (I2CMaster_Write 80 165).
Proof. split; vm_compute; reflexivity. Qed.

End I2CController.

(** ** I2C: the peripheral *)

Section I2CPeripheral.
Import I2C.

(** What [I2CSlave] does with the samples it takes: it acknowledges
    exactly when the seven address samples, put at bits 7..1, make its own
    address byte; otherwise it sends NACK and returns after these seven
    reads with the referenced byte at 0. *)
Lemma slave_decides (a b7 b6 b5 b4 b3 b2 b1 d7 d6 d5 d4 d3 d2 d1 d0 : Z)
      (rest : list Z) (cell : Z) :
  let r := alone (b7 :: b6 :: b5 :: b4 :: b3 :: b2 :: b1
                  :: d7 :: d6 :: d5 :: d4 :: d3 :: d2 :: d1 :: d0 :: rest)
                 cell (I2CSlave a) in
  let seen := address_seen [b7; b6; b5; b4; b3; b2; b1] in
  acked (fst r) = Z.eqb seen a
  /\ nacked (fst r) = negb (Z.eqb seen a)
  /\ (Z.eqb seen a = true ->
      snd r = data_seen [d7; d6; d5; d4; d3; d2; d1; d0]
      /\ length (reads (fst r)) = 15%nat)
  /\ (Z.eqb seen a = false ->
      snd r = 0 /\ length (reads (fst r)) = 7%nat).
Proof.
  cbv zeta. unfold I2CSlave, address_seen, data_seen.
  change (downto 7 7 1) with [7; 6; 5; 4; 3; 2; 1].
  change (downto 8 7 0) with [7; 6; 5; 4; 3; 2; 1; 0].
  cbn [alone I2CSlave_address hd tl fst snd combine fold_left].
  set (R := or_bit _ b1 1).
  destruct (Z.eqb R a) eqn:E.
  - change (downto 8 7 0) with [7; 6; 5; 4; 3; 2; 1; 0].
    cbn [alone I2CSlave_data hd tl fst snd].
    repeat split; try reflexivity; discriminate.
  - repeat split; try reflexivity; discriminate.
Qed.

Lemma seen_checked : forallb seen_check bytes = true.
Proof. vm_compute. reflexivity. Qed.

(** Sampling the bits clocked out for the byte [v] gives [v] with bit 0
    cleared in the address loop and [v] itself in the data loop. *)
Lemma address_seen_sent (v : Z) :
  0 <= v < 256 ->
  address_seen (map (bit_of v) [7; 6; 5; 4; 3; 2; 1]) = 2 * (v / 2).
Proof.
  intros Hv. pose proof (bytes_all seen_check seen_checked v Hv) as H.
  apply andb_true_iff in H as [H _]. apply Z.eqb_eq. exact H.
Qed.

Lemma data_seen_sent (v : Z) :
  0 <= v < 256 ->
  data_seen (map (bit_of v) [7; 6; 5; 4; 3; 2; 1; 0]) = v.
Proof.
  intros Hv. pose proof (bytes_all seen_check seen_checked v Hv) as H.
  apply andb_true_iff in H as [_ H]. apply Z.eqb_eq. exact H.
Qed.

(** The peripheral at [a], sampling once each bit clocked out by
    [I2CMaster_Write a' d]: ACK exactly when [a] is [a'] with bit 0
    cleared. *)
Lemma receive_decides (a a' d : Z) :
  0 <= a' < 256 -> 0 <= d < 256 ->
  acked (fst (receive a a' d)) = Z.eqb (2 * (a' / 2)) a
  /\ nacked (fst (receive a a' d)) = negb (Z.eqb (2 * (a' / 2)) a)
  /\ (Z.eqb (2 * (a' / 2)) a = true -> snd (receive a a' d) = d)
  /\ (Z.eqb (2 * (a' / 2)) a = false ->
      snd (receive a a' d) = 0
      /\ length (reads (fst (receive a a' d))) = 7%nat).
Proof.
  intros Ha' Hd. unfold receive. rewrite master_clocked. cbn [map app].
  pose proof (slave_decides a (bit_of a' 7) (bit_of a' 6) (bit_of a' 5)
                (bit_of a' 4) (bit_of a' 3) (bit_of a' 2) (bit_of a' 1)
                (bit_of d 7) (bit_of d 6) (bit_of d 5) (bit_of d 4)
                (bit_of d 3) (bit_of d 2) (bit_of d 1) (bit_of d 0) [] 0) as H.
  cbv zeta in H.
  pose proof (address_seen_sent a' Ha') as Ea. cbn [map] in Ea.
  pose proof (data_seen_sent d Hd) as Ed. cbn [map] in Ed.
  rewrite Ea, Ed in H. destruct H as [H1 [H2 [H3 H4]]].
  split; [exact H1|]. split; [exact H2|].
  split; [intros E; exact (proj1 (H3 E)) | exact H4].
Qed.

(** C1 (the code departs from it).  Neither loop touches bit 0 of the
    address byte: [I2CMaster_Write] is the same program for 0x51 as for
    0x50, and a peripheral configured for 0x50 that samples the bits
    clocked out for 0x51 sends ACK and stores the data byte 0xA5, while a
    peripheral configured for 0x51 sends NACK to its own address.  In
    general the peripheral sends ACK exactly when its address is the
    transmitted one with bit 0 cleared; on NACK it returns after the seven
    address samples with the data byte at 0. *)
Theorem peripheral_acks_address_with_bit0_cleared :
  (forall data, I2CMaster_Write 81 data = I2CMaster_Write 80 data)
  /\ acked (fst (receive 80 81 165)) = true
  /\ nacked (fst (receive 80 81 165)) = false
  /\ snd (receive 80 81 165) = 165
  /\ nacked (fst (receive 81 81 165)) = true
  /\ (forall a a' d,
         0 <= a < 256 -> 0 <= a' < 256 -> 0 <= d < 256 ->
         (acked (fst (receive a a' d)) = true <-> a = 2 * (a' / 2))
         /\ (nacked (fst (receive a a' d)) = true <-> a <> 2 * (a' / 2))
         /\ (nacked (fst (receive a a' d)) = true ->
             snd (receive a a' d) = 0
             /\ length (reads (fst (receive a a' d))) = 7%nat)).
Proof.
  split; [intros data; reflexivity|].
  split; [vm_compute; reflexivity|]. split; [vm_compute; reflexivity|].
  split; [vm_compute; reflexivity|]. split; [vm_compute; reflexivity|].
  intros a a' d Ha Ha' Hd.
  destruct (receive_decides a a' d Ha' Hd) as [H1 [H2 [H3 H4]]].
  rewrite H1, H2.
  destruct (Z.eqb (2 * (a' / 2)) a) eqn:E.
  - apply Z.eqb_eq in E. cbn [negb].
    split; [split; [intros _; symmetry; exact E | reflexivity]|].
    split; [split; [discriminate | intros N; exfalso; apply N; symmetry; exact E]|].
    discriminate.
  - apply Z.eqb_neq in E. cbn [negb].
    split; [split; [discriminate | intros N; exfalso; apply E; symmetry; exact N]|].
    split; [split; [intros _ N; apply E; symmetry; exact N | reflexivity]|].
    intros _. apply H4. reflexivity.
Qed.

Lemma peripheral_acks_address_with_bit0_cleared_witness :
  0 <= 80 < 256 /\ 0 <= 81 < 256 /\ 0 <= 165 < 256
  /\ (acked (fst (receive 80 81 165)) = true <-> 80 = 2 * (81 / 2)).
Proof.
  assert (Ha : 0 <= 80 < 256) by lia.
  assert (Ha' : 0 <= 81 < 256) by lia.
  assert (Hd : 0 <= 165 < 256) by lia.
  pose proof (proj2 (proj2 (proj2 (proj2 (proj2
                peripheral_acks_address_with_bit0_cleared))))
                80 81 165 Ha Ha' Hd) as T.
  split; [exact Ha|]. split; [exact Ha'|]. split; [exact Hd|].
  exact (proj1 T).
Defined.

End I2CPeripheral.

(** ** I2C: a rejected address *)

Section I2CRejected.
Import I2C.

(** C9.  For every address and data byte and whatever the lines carry,
    [I2CMaster_Write] performs the same events: after the address frame it
    sleeps 50 ms where the acknowledgement would be read, without reading
    or polling any line, then clocks out all eight data bits and drives
    STOP.  When the peripheral answers the address with NACK and returns
    after its seven samples, the controller has clocked out fifteen bits
    all the same, the last eight being the data byte. *)
Theorem controller_sends_data_regardless_of_nack :
  forall (address data : Z) (samples : list Z) (cell : Z),
    0 <= address < 256 -> 0 <= data < 256 ->
    let r := alone samples cell (I2CMaster_Write address data) in
    r = alone [] cell (I2CMaster_Write address data)
    /\ snd r = cell
    /\ reads (fst r) = [] /\ polls (fst r) = []
    /\ fst r = START ++ frame address (downto 7 7 1) ++ [EvSleep 50]
                 ++ frame data (downto 8 7 0) ++ STOP
    /\ skipn 7 (I2C.clocked (fst r)) = map (bit_of data) [7; 6; 5; 4; 3; 2; 1; 0]
    /\ frame_value (skipn 7 (I2C.clocked (fst r))) = data
    /\ skipn 46 (driven (fst r)) = [(Scl, 0); (Sda, 1); (Scl, 1)]
    /\ (forall slave_address,
           nacked (fst (receive slave_address address data)) = true ->
           length (reads (fst (receive slave_address address data))) = 7%nat
           /\ snd (receive slave_address address data) = 0
           /\ length (I2C.clocked (fst r)) = 15%nat).
Proof.
  intros address data samples cell Ha Hd r. subst r.
  rewrite (master_events address data samples cell).
  rewrite (master_events address data [] cell). cbn [fst snd].
  split; [reflexivity|]. split; [reflexivity|]. split; [reflexivity|].
  split; [reflexivity|]. split; [reflexivity|]. split; [reflexivity|].
  split; [exact (frame_value_byte data Hd)|].
  split; [reflexivity|].
  intros slave_address Hn.
  destruct (receive_decides slave_address address data Ha Hd)
    as [_ [H2 [_ H4]]].
  rewrite H2 in Hn. apply negb_true_iff in Hn.
  destruct (H4 Hn) as [Hz Hr].
  split; [exact Hr|]. split; [exact Hz | reflexivity].
Qed.

Lemma controller_sends_data_regardless_of_nack_witness :
  0 <= 81 < 256 /\ 0 <= 165 < 256
  /\ nacked (fst (receive 81 81 165)) = true
  /\ skipn 7 (I2C.clocked (fst (alone [1] 0 (I2CMaster_Write 81 165))))
     = [1; 0; 1; 0; 0; 1; 0; 1]
  /\ length (reads (fst (receive 81 81 165))) = 7%nat.
Proof.
  assert (Ha : 0 <= 81 < 256) by lia.
  assert (Hd : 0 <= 165 < 256) by lia.
  assert (Hn : nacked (fst (receive 81 81 165)) = true)
    by (vm_compute; reflexivity).
  pose proof (controller_sends_data_regardless_of_nack 81 165 [1] 0 Ha Hd) as T.
  cbv zeta in T.
  split; [exact Ha|]. split; [exact Hd|]. split; [exact Hn|].
  split; [exact (proj1 (proj2 (proj2 (proj2 (proj2 (proj2 T))))))|].
  pose proof (proj2 (proj2 (proj2 (proj2 (proj2 (proj2 (proj2 (proj2 T)))))))
                81 Hn) as N.
  exact (proj1 N).
Defined.

End I2CRejected.

(** ** The bus mutex *)

Section LockDiscipline.

Lemma spi_master_violations (v : Z) (samples : list Z) :
  violations false (trace samples (SPI.SPIMaster v))
  = [UnlockedWrite SPI.Cs; UnlockedWrite SPI.Cs].
Proof. reflexivity. Qed.

Lemma spi_slave_violations (samples : list Z) :
  violations false (trace samples SPI.SPISlave)
  = UnlockedPoll [(SPI.Cs, 0)]
    :: flat_map (fun _ : Z => [UnlockedPoll [(SPI.Sclk, 1)];
                               UnlockedPoll [(SPI.Sclk, 0)]])
                (downto 8 7 0).
Proof. reflexivity. Qed.

Lemma i2c_master_violations (address data : Z) (samples : list Z) :
  violations false (trace samples (I2C.I2CMaster_Write address data))
  = repeat SleepUnderLock 15.
Proof. reflexivity. Qed.

Lemma i2c_slave_violations (address : Z) (samples : list Z) :
  forallb I2C.tolerated
          (violations false (trace samples (I2C.I2CSlave address))) = true.
Proof.
  unfold trace, I2C.I2CSlave.
  change (downto 7 7 1) with [7; 6; 5; 4; 3; 2; 1].
  cbn [alone I2C.I2CSlave_address hd tl fst snd].
  match goal with |- context [Z.eqb ?R address] => destruct (Z.eqb R address) end.
  - change (downto 8 7 0) with [7; 6; 5; 4; 3; 2; 1; 0].
    cbn [alone I2C.I2CSlave_data hd tl fst snd]. reflexivity.
  - reflexivity.
Qed.

(** C8, as the source has it.  In both files every write of a clock or
    data line, and every read that takes a bit from a data line, is made
    with the bus mutex held; the select line is written, and the select,
    clock and data lines are polled for edges, without it.  The two SPI
    roles never sleep with the mutex held. *)
Theorem bus_mutex_covers_bit_transfers :
  forall (v address data : Z) (samples : list Z),
    violations false (trace samples (SPI.SPIMaster v))
    = [UnlockedWrite SPI.Cs; UnlockedWrite SPI.Cs]
    /\ forallb SPI.tolerated
               (violations false (trace samples SPI.SPISlave)) = true
    /\ forallb I2C.tolerated
               (violations false
                  (trace samples (I2C.I2CMaster_Write address data))) = true
    /\ forallb I2C.tolerated
               (violations false (trace samples (I2C.I2CSlave address))) = true.
Proof.
  intros v address data samples.
  split; [apply spi_master_violations|].
  split; [rewrite spi_slave_violations; reflexivity|].
  split; [rewrite i2c_master_violations; reflexivity|].
  apply i2c_slave_violations.
Qed.

(** C8 as stated fails in each of the four roles: [SPIMaster] writes CS
    twice without the mutex, [SPISlave] polls SCLK without it,
    [I2CMaster_Write] sleeps fifteen times with the mutex held, and
    [I2CSlave] polls SCL without it and waits for STOP with it. *)
Lemma bus_accessed_outside_the_mutex :
  violations false (trace [] (SPI.SPIMaster 172))
  = [UnlockedWrite SPI.Cs; UnlockedWrite SPI.Cs]
  /\ In (UnlockedPoll [(SPI.Sclk, 1)])
        (violations false (trace [] SPI.SPISlave))
  /\ violations false (trace [] (I2C.I2CMaster_Write 80 165))
     = repeat SleepUnderLock 15
  /\ In (UnlockedPoll [(I2C.Scl, 1)])
        (violations false (fst (I2C.receive 80 80 165)))
  /\ In SleepUnderLock (violations false (fst (I2C.receive 80 80 165))).
Proof.
  split; [vm_compute; reflexivity|].
  split; [vm_compute; tauto|].
  split; [vm_compute; reflexivity|].
  split; vm_compute; tauto.
Qed.

End LockDiscipline.

(** ** The I2C demo under its own sleeps *)

Section Starvation.

Context {line bus msg : Type}.
Variable rd : bus -> line -> Z.
Variable wr : line -> Z -> bus -> bus.
Variable tie : role.

Lemma spinning_tick (s : @sim line bus msg) :
  spinning rd s = true ->
  exists s', tick rd wr tie s = Some s'
             /\ spinning rd s' = true /\ shared s' = shared s.
Proof.
  unfold spinning. intros H.
  apply andb_true_iff in H as [H Ha]. apply andb_true_iff in H as [H Hw].
  apply andb_true_iff in H as [Hc Hp].
  apply negb_true_iff in Hp, Hw.
  destruct (code (peripheral s)) as [| | | | | |c k| | |] eqn:Ec;
    try discriminate Ha.
  apply negb_true_iff in Ha.
  unfold tick, next, runnable. rewrite Hc, Hp, Hw. cbn [negb andb].
  unfold resume. rewrite Ec. cbn [burst]. rewrite Ha.
  eexists. split; [reflexivity|].
  cbn [controller peripheral shared code done waiting].
  rewrite Hc, Ha. split; reflexivity.
Qed.

(** Once the controller has returned and the peripheral spins on a
    condition that the lines do not meet, nothing but the clock moves. *)
Lemma spins_forever (fuel : nat) :
  forall s : @sim line bus msg,
    spinning rd s = true ->
    spinning rd (simulate rd wr tie fuel s) = true
    /\ shared (simulate rd wr tie fuel s) = shared s.
Proof.
  induction fuel as [|fuel IH]; intros s Hs; cbn [simulate].
  - split; [exact Hs | reflexivity].
  - destruct (spinning_tick s Hs) as [s' [-> [Hs' Hsh]]].
    destruct (IH s' Hs') as [H1 H2]. split; [exact H1|].
    rewrite H2. exact Hsh.
Qed.

End Starvation.

Section I2CDemo.
Import I2C.

(** The demo as [main] runs it (address 0x50 on both sides, data 0xA5),
    and the same with the controller addressing 0x51: the controller
    holds the mutex through every clock-high phase and drops it for no
    longer than it takes to lock it again, so the peripheral gets no bit
    of the address in time.  For any number of scheduling steps from 3000
    on, the controller has returned, the peripheral has not, it has sent
    neither ACK nor NACK, and the referenced byte is 0. *)
Lemma i2c_demo_starves (tie : role) (address : Z) (fuel : nat) :
  address = 80 \/ address = 81 ->
  (3000 <= fuel)%nat ->
  starved (I2C.simulate tie fuel (main 80 address 165)).
Proof.
  intros Ha Hfuel.
  replace fuel with (3000 + (fuel - 3000))%nat by lia.
  unfold I2C.simulate. rewrite simulate_add.
  set (s0 := Bus.simulate rd wr tie 3000 (main 80 address 165)).
  assert (H : spinning rd s0 = true
              /\ cell (shared s0) = 0
              /\ console (shared s0) = [MasterStart; SlaveStart; MasterStop]).
  { subst s0. destruct tie, Ha as [-> | ->];
      (split; [vm_compute; reflexivity|]); split; vm_compute; reflexivity. }
  destruct H as [Hs [Hcell Hcon]].
  destruct (spins_forever rd wr tie (fuel - 3000) s0 Hs) as [Hs' Hsh].
  unfold spinning in Hs'.
  apply andb_true_iff in Hs' as [Hs' _]. apply andb_true_iff in Hs' as [Hs' _].
  apply andb_true_iff in Hs' as [Hc Hp]. apply negb_true_iff in Hp.
  unfold starved. rewrite Hsh. auto.
Qed.

End I2CDemo.

End BusFacts.

(** * More about the pipeline: the ledger of slots and items *)

Module LedgerFacts.
Import Pipeline Ledger PipelineFacts.


Lemma process_output_app (c1 c2 : list line) :
  process_output (c1 ++ c2) = process_output c1 ++ process_output c2.
Proof.
  induction c1 as [|[v|v|v] c1 IH]; cbn [app process_output]; rewrite ?IH;
    reflexivity.
Qed.

Lemma Merge_snoc_left (x : Z) (l1 l2 l : list Z) :
  Merge l1 l2 l -> Merge (l1 ++ [x]) l2 (l ++ [x]).
Proof.
  induction 1; cbn [app].
  - repeat constructor.
  - constructor; assumption.
  - constructor; assumption.
Qed.

Lemma Merge_snoc_right (x : Z) (l1 l2 l : list Z) :
  Merge l1 l2 l -> Merge l1 (l2 ++ [x]) (l ++ [x]).
Proof.
  induction 1; cbn [app].
  - repeat constructor.
  - constructor; assumption.
  - constructor; assumption.
Qed.


Lemma Merge_length (l1 l2 l : list Z) :
  Merge l1 l2 l -> (length l = length l1 + length l2)%nat.
Proof. induction 1; cbn [length]; lia. Qed.

Lemma double_snoc (l : list Z) (v : Z) : double (l ++ [v]) = double l ++ [v * 2].
Proof. unfold double. rewrite map_app. reflexivity. Qed.

(** *** The three ledgers are kept by every step *)

Lemma slots_ledger_step (n : Z) (t : task) (s s' : state) :
  slots_ledger s -> step n t s = Some s' -> slots_ledger s'.
Proof.
  unfold slots_ledger, in_flight, uart_seen. intros H Hstep.
  destruct s as [sem q v spc ppc upc con psh acq rel].
  cbn [pipeline_slots pipelineQueue sensor_at process_at uart_at console] in *.
  destruct t; cbn [step] in Hstep;
    [unfold task_sensor_read in Hstep | unfold task_data_process in Hstep
     | unfold task_uart_send in Hstep];
    cbn [pipeline_slots pipelineQueue sensor_at process_at uart_at
         sensor_value console pushed released acquired] in Hstep;
    pipeline_step_cases;
    repeat match goal with
    | H : Sem.wait _ = Some _ |- _ => apply SemFacts.wait_some in H
    | H : Sem.signal _ = Some _ |- _ => apply SemFacts.signal_some in H
    end;
    cbn [pipeline_slots pipelineQueue sensor_at process_at uart_at console];
    rewrite ?uart_output_app; cbn [uart_output];
    rewrite ?length_app in *; cbn [length] in *; lia.
Qed.

Lemma items_ledger_step (n : Z) (t : task) (s s' : state) :
  items_ledger s -> step n t s = Some s' -> items_ledger s'.
Proof.
  unfold items_ledger, process_seen, uart_seen.
  intros [taken [popped [Hp [Hm Hq]]]] Hstep.
  destruct s as [sem q v spc ppc upc con psh acq rel].
  cbn [pipelineQueue process_at uart_at console pushed] in *.
  destruct t; cbn [step] in Hstep;
    [unfold task_sensor_read in Hstep | unfold task_data_process in Hstep
     | unfold task_uart_send in Hstep];
    cbn [pipeline_slots pipelineQueue sensor_at process_at uart_at
         sensor_value console pushed released acquired] in Hstep;
    pipeline_step_cases;
    cbn [pipelineQueue process_at uart_at console pushed];
    rewrite ?uart_output_app, ?process_output_app;
    cbn [uart_output process_output]; try rewrite app_nil_r in Hp; try rewrite app_nil_r in Hm;
    rewrite ?app_nil_r;
    first
      [ exists taken, popped; split; [assumption|]; split;
        [assumption | first [assumption | rewrite Hq, <- app_assoc; reflexivity]]
      | match type of Hq with
        | _ = _ ++ ?z :: _ =>
            first
              [ exists (taken ++ [z]), (popped ++ [z]); split;
                [rewrite double_snoc, Hp; reflexivity|]; split;
                [apply Merge_snoc_left; assumption
                | rewrite Hq, <- app_assoc; reflexivity]
              | exists taken, (popped ++ [z]); split; [assumption|]; split;
                [apply Merge_snoc_right; assumption
                | rewrite Hq, <- app_assoc; reflexivity] ]
        end ].
Qed.

Lemma sensor_ledger_step (n : Z) (t : task) (s s' : state) :
  sensor_ledger n s -> step n t s = Some s' -> sensor_ledger n s'.
Proof.
  unfold sensor_ledger. intros [Ha Hd] Hstep.
  destruct s as [sem q v spc ppc upc con psh acq rel].
  cbn [sensor_at sensor_value acquired pushed] in *.
  destruct t; cbn [step] in Hstep;
    [unfold task_sensor_read in Hstep | unfold task_data_process in Hstep
     | unfold task_uart_send in Hstep];
    cbn [pipeline_slots pipelineQueue sensor_at process_at uart_at
         sensor_value console pushed released acquired] in Hstep;
    pipeline_step_cases;
    repeat match goal with
    | H : (_ <? _) = true |- _ => apply Z.ltb_lt in H
    | H : (_ <? _) = false |- _ => apply Z.ltb_ge in H
    end;
    cbn [sensor_at sensor_value acquired pushed];
    rewrite ?length_app; cbn [length];
    (split; [lia | first [assumption | discriminate | intros _; lia]]).
Qed.

Lemma ledgers_run (n : Z) (sched : list task) :
  forall s,
    slots_ledger s /\ items_ledger s /\ sensor_ledger n s ->
    slots_ledger (run n sched s) /\ items_ledger (run n sched s)
    /\ sensor_ledger n (run n sched s).
Proof.
  induction sched as [|t sched IH]; intros s Hs; [exact Hs|].
  cbn [run fold_left]. apply IH. unfold advance.
  destruct (step n t s) as [s'|] eqn:E; [|exact Hs].
  destruct Hs as [H1 [H2 H3]].
  split; [eapply slots_ledger_step; eauto|].
  split; [eapply items_ledger_step; eauto | eapply sensor_ledger_step; eauto].
Qed.

Lemma ledgers_initial (n : Z) :
  slots_ledger initial /\ items_ledger initial /\ sensor_ledger n initial.
Proof.
  split; [reflexivity|]. split.
  - exists [], []. repeat split; constructor.
  - split; [reflexivity | discriminate].
Qed.

Lemma ledgers_reachable (n : Z) (sched : list task) :
  let s := run n sched initial in
  slots_ledger s /\ items_ledger s /\ sensor_ledger n s.
Proof. apply ledgers_run. apply ledgers_initial. Qed.

Lemma in_flight_nonneg (s : state) : 0 <= in_flight s.
Proof.
  unfold in_flight. destruct (sensor_at s), (process_at s); lia.
Qed.

Lemma upto_length (m : Z) : length (upto m) = Z.to_nat m.
Proof. unfold upto. rewrite length_map, length_seq. reflexivity. Qed.

(** X3.  When [task_sensor_read] has returned from a loop of bound
    [n >= 0], exactly the readings 1, ..., n have been enqueued, in this
    order, and [wait()] has completed [n] times. *)
Theorem sensor_returns_after_all_readings :
  forall (n : Z) (sched : list task),
    0 <= n ->
    let s := run n sched initial in
    sensor_at s = SDone ->
    pushed s = upto n /\ sensor_value s = n /\ acquired s = n.
Proof.
  intros n sched Hn s Hd.
  destruct (ledgers_reachable n sched) as [_ [_ [Ha Hb]]].
  fold s in Ha, Hb. specialize (Hb Hd).
  destruct (order_inv_run n sched initial (order_inv_initial n))
    as [_ Hv Hu]. fold s in Hv, Hu.
  unfold sensor_pending in Hv, Hu. rewrite Hd in *.
  assert (Hsv : sensor_value s = n) by lia.
  rewrite Hsv, Z.sub_0_r in Hu.
  split; [exact Hu|]. split; [exact Hsv|].
  rewrite Ha, Hu, upto_length. lia.
Qed.

Lemma sensor_returns_after_all_readings_witness :
  0 <= READINGS
  /\ sensor_at (run READINGS transform_takes_all initial) = SDone
  /\ pushed (run READINGS transform_takes_all initial) = upto READINGS.
Proof.
  assert (H0 : 0 <= READINGS) by (unfold READINGS; lia).
  assert (H1 : sensor_at (run READINGS transform_takes_all initial) = SDone)
    by reflexivity.
  split; [exact H0|]. split; [exact H1|].
  exact (proj1 (sensor_returns_after_all_readings
                  READINGS transform_takes_all H0 H1)).
Defined.

Lemma Merge_Subseq_left (l1 l2 l : list Z) : Merge l1 l2 l -> Subseq l1 l.
Proof. induction 1; constructor; assumption. Qed.





(** *** A burst of any size can go through *)



Section Steps.

Variables (n : Z) (q : list Z) (v : Z) (p : process_pc) (u : uart_pc).
Variables (con : list line) (psh : list Z) (a r : Z).









End Steps.




End LedgerFacts.

(** * More about the bus roles *)

Module RolesFacts.
Import Bus Roles BusFacts.

Lemma land_1_cases (m : Z) : Z.land m 1 = 0 \/ Z.land m 1 = 1.
Proof.
  assert (H : Z.land m 1 = m mod 2) by (exact (Z.land_ones m 1 ltac:(lia))).
  pose proof (Z.mod_pos_bound m 2 ltac:(lia)). lia.
Qed.

Lemma or_bit_low (acc m i : Z) : or_bit acc m i = or_bit acc (Z.land m 1) i.
Proof.
  unfold or_bit. rewrite <- Z.land_assoc. reflexivity.
Qed.

(** Eight samples make the byte whose bits, most significant first, are
    the low bits of the samples. *)
Lemma byte_of_samples_frame (m7 m6 m5 m4 m3 m2 m1 m0 : Z) :
  byte_of_samples [m7; m6; m5; m4; m3; m2; m1; m0]
  = frame_value (map (fun m => Z.land m 1) [m7; m6; m5; m4; m3; m2; m1; m0]).
Proof.
  unfold byte_of_samples. change (downto 8 7 0) with [7; 6; 5; 4; 3; 2; 1; 0].
  cbn [combine fold_left fst snd map].
  rewrite (or_bit_low _ m7), (or_bit_low _ m6), (or_bit_low _ m5),
    (or_bit_low _ m4), (or_bit_low _ m3), (or_bit_low _ m2),
    (or_bit_low _ m1), (or_bit_low _ m0).
  destruct (land_1_cases m7) as [-> | ->], (land_1_cases m6) as [-> | ->],
    (land_1_cases m5) as [-> | ->], (land_1_cases m4) as [-> | ->],
    (land_1_cases m3) as [-> | ->], (land_1_cases m2) as [-> | ->],
    (land_1_cases m1) as [-> | ->], (land_1_cases m0) as [-> | ->];
    reflexivity.
Qed.

(** ** SPI *)

(** X6.  Each SPI role builds its byte from what it samples and from
    nothing else.  [SPIMaster] prints as read back the byte made of the
    low bits of its eight MISO samples, most significant first, whatever
    byte it is sending; [SPISlave] stores the byte made of the first
    MOSI sample of each clock, and writes to MISO the low bit of the
    second. *)
Theorem spi_roles_decode_their_samples :
  forall (data_out cell0 : Z) (m7 m6 m5 m4 m3 m2 m1 m0 : Z)
         (a7 b7 a6 b6 a5 b5 a4 b4 a3 b3 a2 b2 a1 b1 a0 b0 : Z)
         (rest : list Z),
    let master :=
      trace (m7 :: m6 :: m5 :: m4 :: m3 :: m2 :: m1 :: m0 :: rest)
            (SPI.SPIMaster data_out) in
    let slave :=
      alone (a7 :: b7 :: a6 :: b6 :: a5 :: b5 :: a4 :: b4
             :: a3 :: b3 :: a2 :: b2 :: a1 :: b1 :: a0 :: b0 :: rest)
            cell0 SPI.SPISlave in
    printed master
    = [SPI.MasterSending data_out;
       SPI.MasterReceived (byte_of_samples [m7; m6; m5; m4; m3; m2; m1; m0])]
    /\ byte_of_samples [m7; m6; m5; m4; m3; m2; m1; m0]
       = frame_value (map (fun m => Z.land m 1)
                          [m7; m6; m5; m4; m3; m2; m1; m0])
    /\ snd slave = byte_of_samples [a7; a6; a5; a4; a3; a2; a1; a0]
    /\ miso_driven (fst slave)
       = map (fun m => Z.land m 1) [b7; b6; b5; b4; b3; b2; b1; b0]
    /\ printed (fst slave)
       = [SPI.SlaveStarted;
          SPI.SlaveReceived (byte_of_samples [a7; a6; a5; a4; a3; a2; a1; a0])].
Proof.
  intros. split; [reflexivity|].
  split; [apply byte_of_samples_frame|].
  repeat split; reflexivity.
Qed.

Lemma transfers_leave_idle :
  forallb (fun v => transfer_leaves_idle Controller v
                    && transfer_leaves_idle Peripheral v) bytes = true.
Proof. vm_compute. reflexivity. Qed.

(** X7.  For every byte, the run of [main] of the SPI demo leaves the bus
    ready for another transaction: the mutex is free, CS is high again,
    SCLK is low; MOSI and MISO both carry the last bit of the byte. *)
Theorem spi_bus_idle_after_transfer :
  forall (tie : role) (v : Z),
    0 <= v < 256 ->
    let s := SPI.transfer tie v in
    holder (shared s) = None
    /\ SPI.CS (lines (shared s)) = true
    /\ SPI.SCLK (lines (shared s)) = false
    /\ SPI.MOSI (lines (shared s)) = bit_of v 0
    /\ SPI.MISO (lines (shared s)) = bit_of v 0.
Proof.
  intros tie v Hv s.
  pose proof (bytes_all _ transfers_leave_idle v Hv) as H. cbv beta in H.
  apply andb_true_iff in H as [Hc Hp].
  assert (Hok : transfer_leaves_idle tie v = true) by (destruct tie; assumption).
  unfold transfer_leaves_idle in Hok. cbv zeta in Hok. fold s in Hok.
  apply andb_true_iff in Hok as [Hok H5]. apply andb_true_iff in Hok as [Hok H4].
  apply andb_true_iff in Hok as [Hok H3]. apply andb_true_iff in Hok as [H1 H2].
  apply Z.eqb_eq in H4, H5. apply negb_true_iff in H3.
  destruct (holder (shared s)); [discriminate H1|]. auto.
Qed.

Lemma spi_bus_idle_after_transfer_witness :
  0 <= 172 < 256
  /\ SPI.CS (lines (shared (SPI.transfer Controller 172))) = true
  /\ SPI.SCLK (lines (shared (SPI.transfer Controller 172))) = false.
Proof.
  assert (H : 0 <= 172 < 256) by lia.
  pose proof (spi_bus_idle_after_transfer Controller 172 H) as T.
  cbv zeta in T.
  split; [exact H|].
  split; [exact (proj1 (proj2 T)) | exact (proj1 (proj2 (proj2 T)))].
Defined.

(** ** The mutex *)

Lemma i2c_slave_bracketed (address : Z) (samples : list Z) :
  bracketed false (trace samples (I2C.I2CSlave address)) = Some false.
Proof.
  unfold trace, I2C.I2CSlave.
  change (downto 7 7 1) with [7; 6; 5; 4; 3; 2; 1].
  cbn [alone I2C.I2CSlave_address hd tl fst snd].
  match goal with |- context [Z.eqb ?R address] => destruct (Z.eqb R address) end.
  - change (downto 8 7 0) with [7; 6; 5; 4; 3; 2; 1; 0].
    cbn [alone I2C.I2CSlave_data hd tl fst snd]. reflexivity.
  - reflexivity.
Qed.

(** X8.  None of the four roles ever locks the bus mutex while it holds
    it or releases it without holding it, whatever values it samples and
    on either branch of the address comparison; each has released it
    when it returns. *)
Theorem roles_lock_and_unlock_in_turn :
  forall (v address data : Z) (samples : list Z),
    bracketed false (trace samples (SPI.SPIMaster v)) = Some false
    /\ bracketed false (trace samples SPI.SPISlave) = Some false
    /\ bracketed false (trace samples (I2C.I2CMaster_Write address data))
       = Some false
    /\ bracketed false (trace samples (I2C.I2CSlave address)) = Some false.
Proof.
  intros v address data samples.
  split; [reflexivity|]. split; [reflexivity|]. split; [reflexivity|].
  apply i2c_slave_bracketed.
Qed.

(** ** I2C *)

Section I2CMore.
Import I2C.



End I2CMore.

End RolesFacts.

(** * More about the semaphore *)

Module TallyFacts.
Import Sem Tally.

Lemma last_cons_default (A : Type) (l : list A) (a d d' : A) :
  last (a :: l) d = last (a :: l) d'.
Proof.
  revert a. induction l as [|x l IH]; intros a; [reflexivity|].
  change (last (a :: x :: l) d) with (last (x :: l) d).
  change (last (a :: x :: l) d') with (last (x :: l) d').
  apply IH.
Qed.

Lemma history_head (cs : list call) (s : Semaphore) :
  exists l, history cs s = s :: l.
Proof. destruct cs; cbn [history]; eexists; reflexivity. Qed.

Lemma final_cons (c : call) (cs : list call) (s s' : Semaphore) :
  perform c s = Some s' -> final (c :: cs) s = final cs s'.
Proof.
  intros H. unfold final. cbn [history]. rewrite H.
  destruct (history_head cs s') as [l ->].
  change (last (s :: s' :: l) s) with (last (s' :: l) s).
  apply last_cons_default.
Qed.

Lemma occurrences_nonneg (c : call) (cs : list call) : 0 <= occurrences c cs.
Proof.
  induction cs as [|x cs IH]; cbn [occurrences]; [lia|].
  destruct c, x; lia.
Qed.

(** X11.  As long as no [wait()] arrives at a count of zero (in every
    beginning of the call sequence the waits are at most the initial
    count plus the signals) every call completes and the count is the
    initial count plus the signals minus the waits. *)
Theorem unblocked_calls_add_up :
  forall (cs : list call) (n : Z),
    0 <= n ->
    n + occurrences Signal cs <= INT_MAX ->
    (forall k, occurrences Wait (firstn k cs)
               <= n + occurrences Signal (firstn k cs)) ->
    final cs (init n) = mk (n + occurrences Signal cs - occurrences Wait cs)
    /\ length (history cs (init n)) = S (length cs).
Proof.
  unfold init.
  induction cs as [|c cs IH]; intros n Hn Hmax Hpre.
  - cbn. split; [f_equal; lia | reflexivity].
  - pose proof (occurrences_nonneg Signal cs) as Hs.
    destruct c.
    + (* wait *)
      pose proof (Hpre 1%nat) as H1. cbn in H1.
      assert (Hw : perform Wait (mk n) = Some (mk (n - 1))).
      { cbn [perform]. unfold wait. cbn [count].
        destruct (0 <? n) eqn:E; [reflexivity | apply Z.ltb_ge in E; lia]. }
      rewrite (final_cons _ _ _ _ Hw). cbn [history]. rewrite Hw.
      cbn [occurrences] in *.
      destruct (IH (n - 1)) as [IH1 IH2]; try lia.
      { intros k. specialize (Hpre (S k)). cbn [firstn occurrences] in Hpre.
        lia. }
      split; [rewrite IH1; f_equal; lia | cbn [length]; rewrite IH2; reflexivity].
    + (* signal *)
      cbn [occurrences] in *.
      assert (Hg : perform Signal (mk n) = Some (mk (n + 1))).
      { cbn [perform]. unfold signal. cbn [count].
        destruct (n <? INT_MAX) eqn:E; [reflexivity | apply Z.ltb_ge in E; lia]. }
      rewrite (final_cons _ _ _ _ Hg). cbn [history]. rewrite Hg.
      destruct (IH (n + 1)) as [IH1 IH2]; try lia.
      { intros k. specialize (Hpre (S k)). cbn [firstn occurrences] in Hpre.
        lia. }
      split; [rewrite IH1; f_equal; lia | cbn [length]; rewrite IH2; reflexivity].
Qed.

Lemma unblocked_calls_add_up_witness :
  0 <= 2
  /\ final [Wait; Wait; Signal; Wait; Signal; Signal] (init 2) = mk 2.
Proof.
  assert (H0 : 0 <= 2) by lia.
  assert (H1 : 2 + occurrences Signal [Wait; Wait; Signal; Wait; Signal; Signal]
               <= INT_MAX) by (vm_compute; discriminate).
  assert (H2 : forall k,
             occurrences Wait (firstn k [Wait; Wait; Signal; Wait; Signal; Signal])
             <= 2 + occurrences Signal
                      (firstn k [Wait; Wait; Signal; Wait; Signal; Signal])).
  { intros k. do 7 (destruct k as [|k]; [vm_compute; discriminate|]).
    vm_compute. discriminate. }
  split; [exact H0|].
  exact (proj1 (unblocked_calls_add_up
                  [Wait; Wait; Signal; Wait; Signal; Signal] 2 H0 H1 H2)).
Defined.

End TallyFacts.

(** * [10_uart_simulation.cpp] *)

Module UARTFacts.
Import UART.

Lemma run_snoc (ops : list op) (o : op) (u : UART_Registers) :
  run (ops ++ [o]) u = perform o (run ops u).
Proof. unfold run. rewrite fold_left_app. reflexivity. Qed.

Lemma sent_snoc (ops : list op) (o : op) :
  sent (ops ++ [o]) = sent ops ++ match o with Send data => [data] | _ => [] end.
Proof.
  induction ops as [|x ops IH]; cbn [app sent].
  - destruct o; reflexivity.
  - destruct x; cbn [app]; rewrite IH; reflexivity.
Qed.

Lemma delivered_snoc (rs : list (option Z)) (r : option Z) :
  delivered (rs ++ [r])
  = delivered rs ++ match r with Some data => [data] | None => [] end.
Proof.
  induction rs as [|x rs IH]; cbn [app delivered].
  - destruct r; reflexivity.
  - destruct x; cbn [app]; rewrite IH; reflexivity.
Qed.

(** X12.  Whatever the order in which the firmware's sends and reads and
    the passes of the wire get the lock, starting from the initial
    registers: the characters given to [UART_SendChar] are, in their
    order, those already read, then those in the RX FIFO, then those in
    the TX FIFO.  None is dropped, duplicated or overtaken; [txReady] is
    true whenever the lock is free, so [UART_SendChar] never takes its
    silent path; [rxReady] is set exactly when the RX FIFO holds data. *)
Theorem uart_characters_in_order :
  forall ops : list op,
    let u := fst (run ops UART) in
    let results := snd (run ops UART) in
    delivered results ++ rxBuffer u ++ txBuffer u = sent ops
    /\ txReady u = true
    /\ rxReady u = negb (empty (rxBuffer u)).
Proof.
  induction ops as [|o ops IH] using rev_ind; [repeat split|].
  cbv zeta in *. rewrite run_snoc, sent_snoc.
  destruct (run ops UART) as [u rs]. cbn [fst snd] in IH.
  destruct IH as [Hc [Ht Hr]]. destruct u as [tx rx tr rr].
  cbn [txBuffer rxBuffer txReady rxReady] in *. subst tr.
  destruct o as [data| |]; cbn [perform fst snd];
    [unfold UART_SendChar | unfold UART_TransferWire; destruct tx
     | unfold UART_ReadChar; destruct rx];
    cbn [fst snd txBuffer rxBuffer txReady rxReady];
    rewrite ?delivered_snoc; rewrite ?app_nil_r in *;
    rewrite <- Hc, <- ?app_assoc; cbn [app];
    (split; [reflexivity|]); (split; [reflexivity|]);
    try assumption; destruct rx; reflexivity.
Qed.

Lemma uart_run_app (a b : list op) (u : UART_Registers) :
  run (a ++ b) u
  = (fst (run b (fst (run a u))), snd (run a u) ++ snd (run b (fst (run a u)))).
Proof.
  induction b as [|o b IH] using rev_ind.
  - rewrite app_nil_r.
    change (run [] (fst (run a u))) with (fst (run a u), @nil (option Z)).
    cbn [fst snd]. rewrite app_nil_r. destruct (run a u); reflexivity.
  - rewrite app_assoc, !run_snoc, IH.
    destruct (run b (fst (run a u))) as [u' rs'].
    destruct o; cbn [perform fst snd]; rewrite ?app_assoc; reflexivity.
Qed.

Lemma sends_queue (cs : list Z) :
  forall tx rx rr,
    run (map Send cs) (mkRegs tx rx true rr) = (mkRegs (tx ++ cs) rx true rr, []).
Proof.
  induction cs as [|c cs IH] using rev_ind; intros tx rx rr.
  - rewrite app_nil_r. reflexivity.
  - rewrite map_app. cbn [map]. rewrite run_snoc, IH.
    cbn [perform fst snd]. unfold UART_SendChar.
    cbn [txBuffer rxBuffer txReady rxReady]. rewrite app_assoc. reflexivity.
Qed.

Lemma wire_moves (tx : list Z) :
  forall rx rr,
    run (repeat Wire (length tx)) (mkRegs tx rx true rr)
    = (mkRegs [] (rx ++ tx) true (rr || negb (empty tx)), []).
Proof.
  induction tx as [|c tx IH]; intros rx rr.
  - cbn. rewrite app_nil_r, orb_false_r. reflexivity.
  - cbn [length repeat]. change (Wire :: repeat Wire (length tx))
      with ([Wire] ++ repeat Wire (length tx)).
    rewrite uart_run_app. cbn [run fold_left perform fst snd].
    unfold UART_TransferWire at 1 2. cbn [txBuffer rxBuffer txReady rxReady].
    rewrite IH. cbn [fst snd app]. rewrite <- app_assoc.
    cbn [app empty negb]. rewrite orb_true_r. reflexivity.
Qed.

Lemma reads_drain (rx : list Z) :
  forall rr,
    run (repeat Read (length rx)) (mkRegs [] rx true rr)
    = (mkRegs [] [] true (if empty rx then rr else false), map Some rx).
Proof.
  induction rx as [|c rx IH]; intros rr.
  - reflexivity.
  - cbn [length repeat]. change (Read :: repeat Read (length rx))
      with ([Read] ++ repeat Read (length rx)).
    rewrite uart_run_app. cbn [run fold_left perform fst snd].
    unfold UART_ReadChar at 1 2 3.
    cbn [txBuffer rxBuffer txReady rxReady fst snd].
    rewrite IH. cbn [fst snd app map empty].
    destruct rx; reflexivity.
Qed.

(** X13.  Round trip through the simulated wire: after any characters
    have been sent, as many passes of the wire and as many reads, the
    reads have returned exactly these characters in the order sent and
    the registers are as at the start; one more read finds the RX FIFO
    empty and returns 0. *)
Theorem uart_send_wire_read_round_trip :
  forall cs : list Z,
    let ops := map Send cs ++ repeat Wire (length cs) ++ repeat Read (length cs) in
    run ops UART = (UART, map Some cs)
    /\ map returned (snd (run ops UART)) = cs
    /\ UART_ReadChar (fst (run ops UART)) = (None, UART)
    /\ returned (fst (UART_ReadChar (fst (run ops UART)))) = 0.
Proof.
  intros cs ops.
  assert (H : run ops UART = (UART, map Some cs)).
  { unfold ops, UART. rewrite uart_run_app, sends_queue. cbn [fst snd app].
    rewrite uart_run_app, wire_moves. cbn [fst snd app].
    rewrite reads_drain. cbn [fst snd].
    destruct cs; reflexivity. }
  rewrite H. cbn [fst snd]. split; [reflexivity|].
  split; [|split; reflexivity].
  rewrite map_map. cbn [returned]. apply map_id.
Qed.

End UARTFacts.

(** * [04_functions_and_modular_design.cpp]: the LED register *)

Module LEDFacts.
Import LED.

Lemma wrap8_bits (x i : Z) :
  Z.testbit (wrap8 x) i = (i <? 8) && Z.testbit x i.
Proof.
  unfold wrap8. change 256 with (2 ^ 8).
  destruct (Z.ltb_spec i 8) as [H | H]; cbn [andb].
  - apply Z.mod_pow2_bits_low. exact H.
  - apply Z.mod_pow2_bits_high. lia.
Qed.

Lemma byte_high_bits (reg i : Z) :
  0 <= reg < 256 -> 8 <= i -> Z.testbit reg i = false.
Proof.
  intros Hr Hi. rewrite <- (Z.mod_small reg 256) by lia.
  change 256 with (2 ^ 8). apply Z.mod_pow2_bits_high. lia.
Qed.

Lemma one_shifted_bits (led i : Z) :
  0 <= led -> Z.testbit (Z.shiftl 1 led) i = Z.eqb led i.
Proof.
  intros Hl. rewrite Z.shiftl_1_l. apply Z.pow2_bits_eqb. exact Hl.
Qed.

Lemma wrap8_range (x : Z) : 0 <= wrap8 x < 256.
Proof. unfold wrap8. apply Z.mod_pos_bound. lia. Qed.

(** X14.  [setLED] on a register byte: an index outside 0..7 leaves the
    register as it is; an index within sets exactly that bit to [state]
    and leaves every other bit as it was; the result is a byte again. *)
Theorem setLED_changes_one_bit :
  forall (led_num : Z) (state : bool) (LED_REG : Z),
    0 <= LED_REG < 256 ->
    let r := setLED led_num state LED_REG in
    0 <= r < 256
    /\ (led_num < 0 \/ 7 < led_num -> r = LED_REG)
    /\ (0 <= led_num <= 7 ->
        forall i, Z.testbit r i
                  = if Z.eqb i led_num then state else Z.testbit LED_REG i).
Proof.
  intros led state reg Hr r. subst r. unfold setLED, invalid.
  destruct (Z.ltb_spec led 0) as [H0 | H0]; cbn [orb].
  { split; [exact Hr|]. split; [reflexivity | lia]. }
  destruct (Z.ltb_spec 7 led) as [H7 | H7].
  { split; [exact Hr|]. split; [reflexivity | lia]. }
  split; [destruct state; apply wrap8_range|].
  split; [lia|]. intros _ i.
  destruct (Z.ltb_spec i 0) as [Hi | Hi].
  { destruct (Z.eqb_spec i led); [lia|]. rewrite !Z.testbit_neg_r by lia.
    reflexivity. }
  destruct state; rewrite wrap8_bits.
  - rewrite Z.lor_spec, one_shifted_bits by lia.
    destruct (Z.eqb_spec i led) as [-> | Hne].
    + rewrite Z.eqb_refl, orb_true_r.
      destruct (Z.ltb_spec led 8); [reflexivity | lia].
    + destruct (Z.eqb_spec led i); [lia|]. rewrite orb_false_r.
      destruct (Z.ltb_spec i 8); cbn [andb]; [reflexivity|].
      symmetry. apply byte_high_bits; lia.
  - rewrite Z.land_spec, Z.lnot_spec, one_shifted_bits by lia.
    destruct (Z.eqb_spec i led) as [-> | Hne].
    + rewrite Z.eqb_refl. cbn [negb]. rewrite andb_false_r, andb_false_r.
      reflexivity.
    + destruct (Z.eqb_spec led i); [lia|]. cbn [negb]. rewrite andb_true_r.
      destruct (Z.ltb_spec i 8); cbn [andb]; [reflexivity|].
      symmetry. apply byte_high_bits; lia.
Qed.

Lemma setLED_changes_one_bit_witness :
  0 <= 198 < 256 /\ 0 <= 3 <= 7
  /\ Z.testbit (setLED 3 true 198) 3 = true
  /\ Z.testbit (setLED 3 true 198) 7 = Z.testbit 198 7.
Proof.
  assert (Hr : 0 <= 198 < 256) by lia.
  assert (Hl : 0 <= 3 <= 7) by lia.
  pose proof (setLED_changes_one_bit 3 true 198 Hr) as T. cbv zeta in T.
  split; [exact Hr|]. split; [exact Hl|].
  split; [exact (proj2 (proj2 T) Hl 3) | exact (proj2 (proj2 T) Hl 7)].
Defined.

Lemma laws_checked :
  forallb (fun led => forallb (laws_check led) Bus.bytes) leds = true.
Proof. vm_compute. reflexivity. Qed.

Lemma laws_hold (led reg : Z) :
  0 <= reg < 256 ->
  setLED led false (setLED led true reg) = setLED led false reg
  /\ setLED led false (setLED led false reg) = setLED led false reg
  /\ toggleLED led (toggleLED led reg) = reg.
Proof.
  intros Hr.
  destruct (invalid led) eqn:E.
  - unfold setLED, toggleLED. rewrite !E. auto.
  - unfold invalid in E. apply orb_false_iff in E as [E0 E7].
    apply Z.ltb_ge in E0, E7.
    assert (Hin : In led leds).
    { unfold leds. cbn [In].
      assert (led = 0 \/ led = 1 \/ led = 2 \/ led = 3 \/ led = 4 \/ led = 5
              \/ led = 6 \/ led = 7) by lia.
      intuition. }
    pose proof laws_checked as H. rewrite forallb_forall in H.
    specialize (H led Hin).
    pose proof (BusFacts.bytes_all _ H reg Hr) as L. unfold laws_check in L.
    apply andb_true_iff in L as [L L3]. apply andb_true_iff in L as [L1 L2].
    apply Z.eqb_eq in L1, L2, L3. auto.
Qed.

Lemma setLED_byte (led : Z) (state : bool) (reg : Z) :
  0 <= reg < 256 -> 0 <= setLED led state reg < 256.
Proof.
  intros Hr. unfold setLED. destruct (invalid led); [exact Hr|].
  destruct state; apply wrap8_range.
Qed.

Lemma blink_ends_off (led : Z) (k : nat) :
  forall reg, 0 <= reg < 256 -> blink led (S k) reg = setLED led false reg.
Proof.
  induction k as [|k IH]; intros reg Hr.
  - cbn [blink]. apply (laws_hold led reg Hr).
  - change (blink led (S (S k)) reg)
      with (blink led (S k) (setLED led false (setLED led true reg))).
    destruct (laws_hold led reg Hr) as [L1 [L2 _]].
    rewrite L1, IH by (apply setLED_byte; exact Hr). exact L2.
Qed.

(** X15.  On a register byte, [toggleLED] twice with the same index
    changes nothing; [blinkLED] with a positive count leaves the register
    as one [setLED(led_num, false)] does, however many times it blinks,
    and with a count of zero or less it leaves the register untouched; an
    index outside 0..7 makes both do nothing. *)
Theorem toggle_and_blink_end_states :
  forall (led_num times delay_ms LED_REG : Z),
    0 <= LED_REG < 256 ->
    toggleLED led_num (toggleLED led_num LED_REG) = LED_REG
    /\ (0 < times ->
        blinkLED led_num times delay_ms LED_REG = setLED led_num false LED_REG)
    /\ (times <= 0 -> blinkLED led_num times delay_ms LED_REG = LED_REG)
    /\ (led_num < 0 \/ 7 < led_num ->
        toggleLED led_num LED_REG = LED_REG
        /\ blinkLED led_num times delay_ms LED_REG = LED_REG).
Proof.
  intros led times delay reg Hr.
  split; [apply (laws_hold led reg Hr)|]. split; [|split].
  - intros Ht. unfold blinkLED.
    replace (Z.to_nat times) with (S (Z.to_nat (times - 1))) by lia.
    apply blink_ends_off. exact Hr.
  - intros Ht. unfold blinkLED.
    replace (Z.to_nat times) with O by lia. reflexivity.
  - intros Hl.
    assert (E : invalid led = true).
    { unfold invalid. apply orb_true_iff.
      destruct Hl; [left; apply Z.ltb_lt | right; apply Z.ltb_lt]; lia. }
    split; [unfold toggleLED; rewrite E; reflexivity|].
    unfold blinkLED. generalize (Z.to_nat times) as k.
    induction k as [|k IH]; [reflexivity|].
    cbn [blink]. unfold setLED. rewrite E. exact IH.
Qed.

Lemma toggle_and_blink_end_states_witness :
  0 <= 198 < 256 /\ 0 < 3
  /\ blinkLED 1 3 200 198 = setLED 1 false 198.
Proof.
  assert (Hr : 0 <= 198 < 256) by lia.
  assert (Ht : 0 < 3) by lia.
  pose proof (toggle_and_blink_end_states 1 3 200 198 Hr) as T.
  split; [exact Hr|]. split; [exact Ht|].
  exact (proj1 (proj2 T) Ht).
Defined.

End LEDFacts.

(** * [03_control_flow_and_loops.cpp]: retry and debounce *)

Module ControlFacts.
Import Control.

Lemma wrap_int_id (z : Z) :
  INT_MIN <= z <= INT_MAX -> wrap_int z = z.
Proof.
  unfold INT_MIN, INT_MAX, wrap_int. intros H.
  rewrite Z.mod_small by lia. lia.
Qed.

Lemma i2c_transfer_once_below (c : Z) :
  INT_MIN <= c < INT_MAX -> i2c_transfer_once c = (3 <=? c + 1, c + 1).
Proof.
  intros H. unfold i2c_transfer_once. cbv zeta.
  rewrite wrap_int_id by (unfold INT_MIN, INT_MAX in *; lia). reflexivity.
Qed.

Lemma retry_at_INT_MAX :
  demo_retry_with_backoff INT_MAX = mkOutcome false 5 (INT_MIN + 4) 150.
Proof. vm_compute. reflexivity. Qed.

(** X17.  [demo_retry_with_backoff] against [i2c_transfer_once], for
    every [int] value [c] of the attempt counter at entry, the counter
    wrapping at [INT_MAX]: it succeeds exactly when [-2 <= c < INT_MAX],
    i.e. when the third transfer overall falls within its five attempts
    and the first increment does not wrap.  On success it has made
    [max 1 (3 - c)] attempts; on failure all five, with 150 ms of
    back-off: for [c < -2], and for [c = INT_MAX], where the counter wraps
    to [INT_MIN].  Either way the counter has advanced by the number of
    attempts, as an [int], and the time spent backing off is 10 ms times
    the sum of the numbers of the failed attempts. *)
Theorem retry_succeeds_within_five_attempts :
  forall c : Z,
    INT_MIN <= c <= INT_MAX ->
    let o := demo_retry_with_backoff c in
    (success o = true <-> -2 <= c < INT_MAX)
    /\ (-2 <= c < INT_MAX ->
        attempt o = Z.max 1 (3 - c)
        /\ delayed o = 5 * (attempt o - 1) * attempt o)
    /\ (c < -2 \/ c = INT_MAX -> attempt o = 5 /\ delayed o = 150)
    /\ attempts_global o = wrap_int (c + attempt o)
    /\ INT_MIN <= attempts_global o <= INT_MAX.
Proof.
  intros c Hc o. subst o.
  destruct (Z.eq_dec c INT_MAX) as [-> | Hne].
  - rewrite retry_at_INT_MAX. cbn [success attempt attempts_global delayed].
    split; [split; [discriminate | unfold INT_MAX; lia]|].
    split; [unfold INT_MAX; lia|].
    split; [intros _; split; reflexivity|].
    split; [vm_compute; reflexivity | unfold INT_MIN, INT_MAX; lia].
  - assert (Hlt : INT_MIN <= c < INT_MAX) by lia.
    unfold demo_retry_with_backoff, MAX_RETRIES. cbn [retry].
    unfold INT_MIN, INT_MAX in *.
    repeat (rewrite i2c_transfer_once_below
              by (unfold INT_MIN, INT_MAX; lia);
            cbn [fst snd];
            match goal with
            | |- context [?a <=? ?b] => destruct (Z.leb_spec a b)
            end);
      cbn [success attempt attempts_global delayed];
      try lia;
      (split; [split; [intros; lia | intros; first [reflexivity | lia]]|]);
      (split; [intros; split; lia|]);
      (split; [intros; split; lia|]);
      (rewrite wrap_int_id by (unfold INT_MIN, INT_MAX; lia)); lia.
Qed.

Lemma retry_succeeds_within_five_attempts_witness :
  INT_MIN <= 0 <= INT_MAX
  /\ success (demo_retry_with_backoff 0) = true
  /\ attempt (demo_retry_with_backoff 0) = 3
  /\ delayed (demo_retry_with_backoff 0) = 30.
Proof.
  assert (H : INT_MIN <= 0 <= INT_MAX) by (unfold INT_MIN, INT_MAX; lia).
  pose proof (retry_succeeds_within_five_attempts 0 H) as T. cbv zeta in T.
  split; [exact H|].
  split; [exact (proj2 (proj1 T) ltac:(unfold INT_MAX; lia))|].
  split; [exact (proj1 (proj1 (proj2 T) ltac:(unfold INT_MAX; lia)))|].
  reflexivity.
Defined.

Lemma repeat_shift (x : Z) (k : nat) (l : list Z) :
  repeat x k ++ x :: l = repeat x (S k) ++ l.
Proof.
  induction k as [|k IH]; [reflexivity|].
  cbn [repeat app] in *. rewrite IH. reflexivity.
Qed.

Lemma debounce_loop_unfold (samples : list Z) (prev sc : Z) :
  debounce_loop samples prev sc
  = if STABLE_REQUIRED <=? sc then Some prev
    else match samples with
         | [] => None
         | cur :: rest =>
             if Z.eqb cur prev then debounce_loop rest prev (sc + 1)
             else debounce_loop rest cur 0
         end.
Proof. destruct samples; reflexivity. Qed.

(** While the loop runs, the last [stable_count + 1] samples taken were
    all [prev]; when it ends, four equal samples lie behind it. *)
Lemma debounce_loop_some (rest : list Z) :
  forall (prev sc v : Z) (before : list Z),
    0 <= sc <= 3 ->
    debounce_loop rest prev sc = Some v ->
    exists pre post,
      before ++ repeat prev (Z.to_nat (sc + 1)) ++ rest
      = pre ++ [v; v; v; v] ++ post.
Proof.
  induction rest as [|cur rest IH]; intros prev sc v before Hsc H;
    rewrite debounce_loop_unfold in H; unfold STABLE_REQUIRED in H;
    destruct (Z.leb_spec 3 sc) as [H3 | H3].
  - injection H as <-. replace sc with 3 by lia.
    exists before, []. reflexivity.
  - discriminate H.
  - injection H as <-. replace sc with 3 by lia.
    exists before, (cur :: rest). reflexivity.
  - destruct (Z.eqb_spec cur prev) as [-> | Hne].
    + destruct (IH prev (sc + 1) v before ltac:(lia) H) as [pre [post E]].
      exists pre, post. rewrite <- E. f_equal.
      rewrite repeat_shift. f_equal. f_equal. lia.
    + destruct (IH cur 0 v (before ++ repeat prev (Z.to_nat (sc + 1)))
                   ltac:(lia) H) as [pre [post E]].
      exists pre, post. rewrite <- E. rewrite <- app_assoc. reflexivity.
Qed.

Lemma stable_tail (k : nat) :
  forall (post : list Z) (x sc : Z),
    0 <= sc -> 3 <= sc + Z.of_nat k ->
    debounce_loop (repeat x k ++ post) x sc <> None.
Proof.
  induction k as [|k IH]; intros post x sc H0 H3;
    rewrite debounce_loop_unfold; unfold STABLE_REQUIRED;
    destruct (Z.leb_spec 3 sc) as [Hs | Hs]; try discriminate; try lia.
  cbn [repeat app]. rewrite Z.eqb_refl. apply IH; lia.
Qed.

Lemma run_anywhere (pre : list Z) :
  forall (post : list Z) (x prev sc : Z),
    0 <= sc ->
    debounce_loop (pre ++ repeat x 4 ++ post) prev sc <> None.
Proof.
  induction pre as [|c pre IH]; intros post x prev sc H0;
    rewrite debounce_loop_unfold; unfold STABLE_REQUIRED;
    destruct (Z.leb_spec 3 sc) as [Hs | Hs]; try discriminate.
  - cbn [app repeat].
    change (x :: x :: x :: post) with (repeat x 3 ++ post).
    destruct (Z.eqb_spec x prev) as [-> | Hne]; apply stable_tail; cbn; lia.
  - cbn [app]. destruct (Z.eqb c prev); apply IH; lia.
Qed.

(** X18.  [demo_debounce_button] over any sequence of pin readings: when
    it reports a debounced value, that value was read on four consecutive
    samples (the reading it compares with and three matching ones); and
    it reports one as soon as the readings hold four equal consecutive
    ones: only readings that never settle keep it sampling. *)
Theorem debounce_reports_a_settled_value :
  forall samples : list Z,
    (forall v, demo_debounce_button samples = Some v ->
               exists pre post, samples = pre ++ [v; v; v; v] ++ post)
    /\ (forall pre x post,
           samples = pre ++ [x; x; x; x] ++ post ->
           demo_debounce_button samples <> None).
Proof.
  intros samples. split.
  - intros v H. destruct samples as [|initial rest]; [discriminate H|].
    cbn [demo_debounce_button] in H.
    destruct (debounce_loop_some rest initial 0 v [] ltac:(lia) H)
      as [pre [post E]].
    exists pre, post. exact E.
  - intros pre x post ->. destruct pre as [|c pre]; cbn [app demo_debounce_button].
    + change (x :: x :: x :: post) with (repeat x 3 ++ post).
      apply stable_tail; cbn; lia.
    + change (x :: x :: x :: x :: post) with (repeat x 4 ++ post).
      apply run_anywhere. lia.
Qed.

Lemma debounce_reports_a_settled_value_witness :
  demo_debounce_button [0; 1; 0; 1; 1; 1; 1; 0] = Some 1
  /\ exists pre post, [0; 1; 0; 1; 1; 1; 1; 0] = pre ++ [1; 1; 1; 1] ++ post.
Proof.
  assert (H : demo_debounce_button [0; 1; 0; 1; 1; 1; 1; 0] = Some 1)
    by reflexivity.
  split; [exact H|].
  exact (proj1 (debounce_reports_a_settled_value [0; 1; 0; 1; 1; 1; 1; 0]) 1 H).
Defined.

End ControlFacts.

(** * The pipeline with the queue calls as separate steps *)

Module RaceFacts.
Import Pipeline.
Import Race.

Ltac race_step_cases :=
  repeat match goal with
  | H : Next _ = Next _ |- _ => injection H as <-
  | H : Blocked = Next _ |- _ => discriminate H
  | H : Undefined = Next _ |- _ => discriminate H
  | H : context [match ?x with _ => _ end] |- _ => destruct x eqn:?
  end.

Ltac race_fields :=
  cbn [pipeline_slots pipelineQueue sensor_at process_at uart_at
       sensor_value console pushed released acquired] in *.

Ltac race_unfold_step Hstep t :=
  destruct t; cbn [step] in Hstep;
  [unfold task_sensor_read in Hstep | unfold task_data_process in Hstep
   | unfold task_uart_send in Hstep];
  race_fields.

Lemma race_run_snoc (n : Z) (sched : list task) (t : task) (s : state) :
  run n (sched ++ [t]) s = advance n (run n sched s) t.
Proof. unfold run. rewrite fold_left_app. reflexivity. Qed.

(** What holds at the start and is kept by every defined step holds at
    every state that a run reaches. *)
Lemma run_invariant (P : state -> Prop) (n : Z) :
  P initial ->
  (forall t s s', P s -> step n t s = Next s' -> P s') ->
  forall sched s, run n sched initial = Some s -> P s.
Proof.
  intros H0 Hstep sched.
  induction sched as [|t sched IH] using rev_ind; intros s Hs.
  - injection Hs as <-. exact H0.
  - rewrite race_run_snoc in Hs.
    destruct (run n sched initial) as [s0|]; [|discriminate Hs].
    cbn [advance] in Hs. specialize (IH s0 eq_refl).
    destruct (step n t s0) as [s1| |] eqn:E; try discriminate Hs;
      injection Hs as <-; [eapply Hstep; eauto | exact IH].
Qed.

Lemma race_gate_inv_initial : gate_inv initial.
Proof. split; vm_compute; congruence. Qed.

Lemma race_gate_inv_step (n : Z) (t : task) (s s' : state) :
  gate_inv s -> step n t s = Next s' -> gate_inv s'.
Proof.
  intros [Hn Hl Hs] Hstep. unfold in_flight, uart_popped in Hs.
  destruct s as [sem q v spc ppc upc con psh acq rel]. race_fields.
  race_unfold_step Hstep t;
    race_step_cases;
    repeat match goal with
    | H : Sem.wait _ = Some _ |- _ => apply SemFacts.wait_some in H
    | H : Sem.signal _ = Some _ |- _ => apply SemFacts.signal_some in H
    end;
    split; unfold in_flight, uart_popped; race_fields;
    rewrite ?PipelineFacts.uart_output_app; cbn [uart_output];
    rewrite ?length_app in *; cbn [length] in *; try lia.
Qed.

Lemma race_gate_inv_run (n : Z) (sched : list task) (s : state) :
  run n sched initial = Some s -> gate_inv s.
Proof.
  apply run_invariant; [exact race_gate_inv_initial|].
  intros t s0 s1 H0 H1. eapply race_gate_inv_step; eauto.
Qed.

(** *** Order *)












Lemma race_in_flight_nonneg (s : state) : 0 <= in_flight s.
Proof.
  unfold in_flight. destruct (sensor_at s), (process_at s); lia.
Qed.


(** C4.  The count of [pipeline_slots] against its capacity of 2, with
    the unlocked queue calls of the two consuming stages as they are in
    the source.  The bounds of the claim hold at every state a run
    reaches through defined steps.  They are not kept in every execution:
    with one item queued, [task_data_process] passes its [empty()] test,
    [task_uart_send] tests, reads and pops the item, and
    [task_data_process] then calls [front()] (and [pop()]) on an empty
    queue.  That has no defined behaviour, and the [signal()] that follows
    it releases a slot that its item never acquired: from there nothing
    bounds the count. *)
Theorem unlocked_dequeue_breaks_the_gate :
  (forall (readings : Z) (sched : list task) (s : state),
      run readings sched initial = Some s ->
      0 <= Sem.count (pipeline_slots s) <= capacity
      /\ capacity = 2
      /\ acquired s - released s <= capacity)
  /\ (exists s : state,
        run READINGS before_front initial = Some s
        /\ process_at s = PFront
        /\ uart_at s = USend 1
        /\ pipelineQueue s = []
        /\ pushed s = [1]
        /\ Sem.count (pipeline_slots s) = 1
        /\ task_data_process s = Undefined)
  /\ run READINGS emptied_before_front initial = None.
Proof.
  split; [|split].
  - intros readings sched s H.
    destruct (race_gate_inv_run _ _ _ H) as [Hn Hl Hs].
    pose proof (race_in_flight_nonneg s) as Hf.
    assert (Hu : 0 <= uart_popped s)
      by (unfold uart_popped; destruct (uart_at s); lia).
    unfold capacity in *. repeat split; lia.
  - eexists. split; [vm_compute; reflexivity|].
    repeat split; reflexivity.
  - vm_compute. reflexivity.
Qed.

Lemma unlocked_dequeue_breaks_the_gate_witness :
  exists s : state,
    run READINGS taken_by_both initial = Some s
    /\ 0 <= Sem.count (pipeline_slots s) <= capacity.
Proof.
  eexists. split; [vm_compute; reflexivity|].
  apply (proj1 unlocked_dequeue_breaks_the_gate READINGS taken_by_both).
  vm_compute. reflexivity.
Defined.





(** X4.  Nothing keeps the two consuming stages from dequeuing at the
    same time.  With the readings 1 and 2 queued, both call [front()]
    and get 1; [task_uart_send] pops 1 and [task_data_process] pops 2
    without having looked at it.  Item 1 is printed by both stages (as 2
    by the transform stage, as 1 by the sink), item 2 by neither, and the
    queue is empty. *)
Theorem racing_stages_take_the_same_item :
  exists s : state,
    run READINGS taken_by_both initial = Some s
    /\ console s
       = [SensorRead 1; SensorRead 2; Processed 2; UartSending 1]
    /\ pushed s = [1; 2]
    /\ pipelineQueue s = []
    /\ process_at s = PSignal
    /\ uart_at s = UCheck.
Proof.
  eexists. split; [vm_compute; reflexivity|].
  repeat split; reflexivity.
Qed.

End RaceFacts.

(** * The round trip of a byte *)

Module RoundTripFacts.
Import Bus.
Import Probe.

Lemma list_eqb_eq (a : list Z) :
  forall b, list_eqb a b = true -> a = b.
Proof.
  induction a as [|x a IH]; intros [|y b] H; cbn [list_eqb] in H;
    try discriminate H; [reflexivity|].
  apply andb_true_iff in H as [Hx Hr]. apply Z.eqb_eq in Hx.
  rewrite Hx, (IH b Hr). reflexivity.
Qed.

Lemma echoes_checked :
  forallb (fun v => echo_ok Controller v && echo_ok Peripheral v)
          Bus.bytes = true.
Proof. vm_compute. reflexivity. Qed.

Lemma echo_ok_sound (tie : role) (v : Z) :
  0 <= v < 256 ->
  miso_samples tie v = map (bit_of v) (downto 8 7 0)
  /\ mosi_samples tie v = twice (map (bit_of v) (downto 8 7 0))
  /\ length (samples_of SPI.rd SPI.wr tie SPI.FUEL (SPI.main v)) = 24%nat.
Proof.
  intros Hv.
  pose proof (BusFacts.bytes_all _ echoes_checked v Hv) as H. cbv beta in H.
  apply andb_true_iff in H as [Hc Hp].
  assert (Hok : echo_ok tie v = true) by (destruct tie; assumption).
  unfold echo_ok in Hok.
  apply andb_true_iff in Hok as [Hok Hn].
  apply andb_true_iff in Hok as [Hmi Hmo].
  split; [apply list_eqb_eq, Hmi|].
  split; [apply list_eqb_eq, Hmo | apply Nat.eqb_eq, Hn].
Qed.

Lemma bits_decode (v : Z) :
  0 <= v < 256 ->
  Roles.byte_of_samples (map (bit_of v) (downto 8 7 0)) = v.
Proof.
  intros Hv.
  assert (H : forallb
                (fun v => Z.eqb (Roles.byte_of_samples
                                   (map (bit_of v) (downto 8 7 0))) v)
                Bus.bytes = true) by (vm_compute; reflexivity).
  apply Z.eqb_eq. exact (BusFacts.bytes_all _ H v Hv).
Qed.

(** The I2C demo under the sleeps of the source: the peripheral is left
    spinning with nothing received. *)
Lemma i2c_run_starves (tie : role) (slave_address address data : Z)
      (fuel : nat) :
  (Roles.I2C_FUEL <= fuel)%nat ->
  I2C.starved (I2C.simulate tie fuel (I2C.main slave_address address data)).
Proof.
  intros Hfuel. unfold Roles.I2C_FUEL in Hfuel.
  replace fuel with (3000 + (fuel - 3000))%nat by lia.
  unfold I2C.simulate. rewrite BusFacts.simulate_add.
  set (s0 := Bus.simulate I2C.rd I2C.wr tie 3000
               (I2C.main slave_address address data)).
  assert (H : spinning I2C.rd s0 = true
              /\ cell (shared s0) = 0
              /\ console (shared s0)
                 = [I2C.MasterStart; I2C.SlaveStart; I2C.MasterStop]).
  { subst s0. destruct tie;
      (split; [vm_compute; reflexivity|]); split; vm_compute; reflexivity. }
  destruct H as [Hs [Hcell Hcon]].
  destruct (BusFacts.spins_forever I2C.rd I2C.wr tie (fuel - 3000) s0 Hs)
    as [Hs' Hsh].
  unfold spinning in Hs'.
  apply andb_true_iff in Hs' as [Hs' _]. apply andb_true_iff in Hs' as [Hs' _].
  apply andb_true_iff in Hs' as [Hc Hp]. apply negb_true_iff in Hp.
  unfold I2C.starved. rewrite Hsh. auto.
Qed.

(** C2.  The round trip of a byte, in the two variants.

    SPI: for every byte [v], the run of [main] on [v] under the sleeps of
    the source (50 ms holds of the master, 1 ms polls of the slave), with
    either thread first when both are due, ends with both roles returned.
    The master has clocked out the bits of [v] most significant first;
    the slave has sampled each of them on MOSI, [received_by_slave] is
    [v]; the master has sampled on MISO the bits of [v] that the slave
    echoed, and the byte it prints as read back is the byte made of those
    samples, [v].  Whatever it samples on MISO, [SPIMaster] prints the
    byte made of its eight samples and not the byte it sends.

    I2C: under the sleeps of the source the run of [main] does not make
    the round trip, for any addresses and any data byte: the peripheral
    is left spinning with the referenced byte at 0, and with the data
    byte 0xA5 of [main] it has not reconstructed 0xA5. *)
Theorem round_trip_by_echo_on_spi_not_on_i2c :
  (forall (tie : role) (v : Z),
      0 <= v < 256 ->
      let s := SPI.transfer tie v in
      finished s = true
      /\ SPI.clocked (trace [] (SPI.SPIMaster v))
         = map (bit_of v) (downto 8 7 0)
      /\ frame_value (SPI.clocked (trace [] (SPI.SPIMaster v))) = v
      /\ mosi_samples tie v = twice (map (bit_of v) (downto 8 7 0))
      /\ SPI.received_by_slave s = v
      /\ miso_samples tie v = map (bit_of v) (downto 8 7 0)
      /\ Roles.byte_of_samples (miso_samples tie v) = v
      /\ console (shared s)
         = [SPI.MasterSending v; SPI.SlaveStarted; SPI.SlaveReceived v;
            SPI.MasterReceived (Roles.byte_of_samples (miso_samples tie v))]
      /\ SPI.master_read_back (console (shared s)) = Some v
      /\ forall fuel, (SPI.FUEL <= fuel)%nat ->
                      SPI.simulate tie fuel (SPI.main v) = s)
  /\ (forall (data_out m7 m6 m5 m4 m3 m2 m1 m0 : Z) (rest : list Z),
        printed (trace (m7 :: m6 :: m5 :: m4 :: m3 :: m2 :: m1 :: m0 :: rest)
                       (SPI.SPIMaster data_out))
        = [SPI.MasterSending data_out;
           SPI.MasterReceived
             (Roles.byte_of_samples [m7; m6; m5; m4; m3; m2; m1; m0])])
  /\ (forall (tie : role) (slave_address address data : Z) (fuel : nat),
        (Roles.I2C_FUEL <= fuel)%nat ->
        I2C.starved
          (I2C.simulate tie fuel (I2C.main slave_address address data)))
  /\ cell (shared (I2C.simulate Controller Roles.I2C_FUEL
                     (I2C.main 80 80 165))) = 0.
Proof.
  split; [|split; [|split]].
  - intros tie v Hv s.
    pose proof (BusFacts.bytes_all _ BusFacts.transfers_checked v Hv) as H.
    cbv beta in H. apply andb_true_iff in H as [Hc Hp].
    assert (Hok : SPI.transfer_ok tie v = true) by (destruct tie; assumption).
    destruct (BusFacts.transfer_ok_sound tie v Hok) as [Hf [Hr Hcon]].
    fold s in Hf, Hr, Hcon.
    destruct (echo_ok_sound tie v Hv) as [Hmi [Hmo _]].
    split; [exact Hf|]. split; [reflexivity|].
    split; [rewrite BusFacts.master_clocks_msb_first;
            apply (BusFacts.frame_value_byte v Hv)|].
    split; [exact Hmo|]. split; [exact Hr|]. split; [exact Hmi|].
    rewrite Hmi, (bits_decode v Hv).
    split; [reflexivity|]. split; [exact Hcon|].
    split; [rewrite Hcon; reflexivity|].
    intros fuel Hfuel. unfold s, SPI.transfer, SPI.simulate in *.
    apply BusFacts.simulate_enough; assumption.
  - intros. reflexivity.
  - intros tie sa a d fuel Hfuel. apply i2c_run_starves, Hfuel.
  - pose proof (i2c_run_starves Controller 80 80 165 Roles.I2C_FUEL
                  (Nat.le_refl _)) as [_ [_ [Hc _]]].
    exact Hc.
Qed.

Lemma round_trip_by_echo_on_spi_not_on_i2c_witness :
  0 <= 172 < 256
  /\ SPI.received_by_slave (SPI.transfer Controller 172) = 172
  /\ miso_samples Controller 172 = map (bit_of 172) (downto 8 7 0)
  /\ SPI.master_read_back (console (shared (SPI.transfer Controller 172)))
     = Some 172.
Proof.
  assert (H : 0 <= 172 < 256) by lia.
  pose proof (proj1 round_trip_by_echo_on_spi_not_on_i2c Controller 172 H)
    as T.
  cbv zeta in T.
  destruct T as [_ [_ [_ [_ [Hr [Hm [_ [_ [Hb _]]]]]]]]].
  split; [exact H|]. split; [exact Hr|]. split; [exact Hm | exact Hb].
Defined.

End RoundTripFacts.
